(** * Encrypted block data of Prefect Orion

    A shallow embedding of [src/prefect/orion/models/block_data.py]:
    the Fernet key provider ([get_fernet_encryption]), the envelope codec
    ([encrypt_blockdata], [decrypt_blockdata]), the structural mapping
    between flat blocks and stored records ([pack_blockdata],
    [unpack_blockdata]) and the read, update and delete operations of the
    block store ([read_block_data_as_block],
    [read_block_data_by_name_as_block], [update_block_data],
    [delete_block_data_by_name]).

    Python coroutines are programs of a free monad [Py] over the calls the
    module makes to its surroundings (process environment, entropy,
    configuration table, SQL session, dict objects).  A handler gives the
    calls their meaning on a [world]; [exec] runs a program alone,
    [exec_among] runs it while other sessions commit at its [await]s. *)

From stdpp Require Import base option countable gmap strings list.
From Stdlib Require Import ZArith NArith.
From Stdlib.Strings Require Import Byte Ascii.
From Stdlib.Floats Require Import SpecFloat.

#[local] Set Warnings "-register-all".
#[local] Open Scope string_scope.
#[local] Open Scope list_scope.

(** ** Python values *)

(** JSON data: the values [json.loads] returns and a JSON column holds, that
    is [None], [bool], [int], [float], [str], lists, and dicts keyed by [str].
    An [int] is unbounded; a [float] is an IEEE 754 datum (in Python a
    binary64 one), NaN and the two infinities included, which [json.dumps]
    writes and [json.loads] reads by default.

    [json.dumps] takes more than that: a dict key that is not a [str] is
    written as a string and a tuple as an array, so such a value does not
    load back as what it was.  Those values are not JSON data and are not
    values of this type.

    Equality of this type is sameness of data.  It is not Python's [==],
    under which NaN differs from itself: that is [py_eq] below. *)
Unset Elimination Schemes.
Inductive json : Type :=
| JNull
| JBool (b : bool)
| JNum (n : Z)
| JFloat (x : spec_float)
| JStr (s : string)
| JArr (l : list json)
| JObj (o : gmap string json).
Set Elimination Schemes.





(** [bytes] objects. *)
Abbreviation bytes := (list byte).

(** A dict object that the code mutates or shares lives on the heap and is
    known by its address. *)
Definition loc := nat.

(** A value held in a Python variable or in a dict slot: immutable JSON-like
    data, or a reference to a dict object. *)
Inductive pyval : Type :=
| PJson (j : json)
| PRef (l : loc).

Abbreviation PNone := (PJson JNull).

(** Exceptions the module can let escape. *)
Inductive exn : Type :=
| KeyError (k : string)
| TypeError
| AttributeError
| ValueError
| UnicodeDecodeError
| JSONDecodeError
| InvalidToken
| IntegrityError
| SystemError.

Inductive outcome (A : Type) : Type :=
| Ok (a : A)
| Err (e : exn).
Arguments Ok {A} a.
Arguments Err {A} e.

(** ** Storage *)

(** [schemas.core.Configuration]: a row of the configuration table. *)
Record Configuration := mkConfiguration {
  key : string;
  value : json
}.

(** A row of the [block_data] table, column name to value (an absent column
    is SQL NULL). *)
Abbreviation row := (gmap string json).

(** The [where] clauses the module writes: [BlockData.name == name] and
    [BlockData.id == block_data_id] (a UUID, kept in its text form). *)
Inductive criterion : Type :=
| ByName (n : string)
| ById (i : string).

(** The statements the module hands to [session.execute]. *)
Inductive statement : Type :=
| Select (c : criterion) (for_update : bool)
| Update (c : criterion) (values : gmap string json)
| Delete (c : criterion).

(** What [session.execute] gives back. *)
Record Result := mkResult {
  rows : list row;
  rowcount : Z
}.

(** [result.scalar()]: the first row, or [None]. *)
Definition scalar (r : Result) : option row := head (rows r).

(** ** The calls a coroutine makes *)

Variant io : Type → Type :=
| Getenv (name : string) : io (option string)
| Urandom : io N
| ReadConfigurationByKey (k : string) : io (option Configuration)
| CreateConfiguration (c : Configuration) : io unit
| Execute (s : statement) : io Result
| DictAlloc (d : gmap string pyval) : io loc
| DictLoad (l : loc) : io (gmap string pyval)
| DictStore (l : loc) (d : gmap string pyval) : io unit.

(** The calls that are awaited: the coroutine is suspended there and other
    sessions may run. *)
Definition awaited {X} (c : io X) : bool :=
  match c with
  | ReadConfigurationByKey _ | CreateConfiguration _ | Execute _ => true
  | _ => false
  end.

(** Programs: return, raise, or make a call and go on with its answer. *)
Inductive Py (A : Type) : Type :=
| Return (a : A)
| Raise (e : exn)
| Vis {X : Type} (c : io X) (k : X → Py A).
Arguments Return {A} a.
Arguments Raise {A} e.
Arguments Vis {A X} c k.

Fixpoint bind {A B} (p : Py A) (f : A → Py B) : Py B :=
  match p with
  | Return a => f a
  | Raise e => Raise e
  | Vis c k => Vis c (λ x, bind (k x) f)
  end.

#[global] Instance Py_ret : MRet Py := @Return.
#[global] Instance Py_bind : MBind Py := λ A B f p, bind p f.

Definition call {X} (c : io X) : Py X := Vis c Return.

(** ** The world and the handler *)

Record world := mkWorld {
  environ : gmap string string;          (* os.environ *)
  configuration : list Configuration;    (* the configuration table *)
  block_data : list row;                 (* the block_data table *)
  heap : list (gmap string pyval);       (* dict objects, by address *)
  tape : nat → N;                        (* the entropy still to come *)
  drawn : nat                            (* how much of it was used *)
}.

Definition with_configuration (c : list Configuration) (w : world) : world :=
  mkWorld (environ w) c (block_data w) (heap w) (tape w) (drawn w).
Definition with_block_data (t : list row) (w : world) : world :=
  mkWorld (environ w) (configuration w) t (heap w) (tape w) (drawn w).
Definition with_heap (h : list (gmap string pyval)) (w : world) : world :=
  mkWorld (environ w) (configuration w) (block_data w) h (tape w) (drawn w).
Definition with_drawn (n : nat) (w : world) : world :=
  mkWorld (environ w) (configuration w) (block_data w) (heap w) (tape w) n.

(** What an observer of the database and of the configuration module sees. *)
Inductive event : Type :=
| EvReadConfiguration (k : string)
| EvCreateConfiguration (c : Configuration)
| EvExecute (s : statement).

Definition event_of {X} (c : io X) : list event :=
  match c with
  | ReadConfigurationByKey k => [EvReadConfiguration k]
  | CreateConfiguration c => [EvCreateConfiguration c]
  | Execute s => [EvExecute s]
  | _ => []
  end.

Definition has_key (k : string) (c : Configuration) : bool := String.eqb (key c) k.

(** Modelled from the spec: [configurations.read_configuration_by_key], which
    is not part of this module; it returns the configuration entry stored
    under the key name, or [None]. *)
Definition read_configuration_by_key (k : string) (t : list Configuration)
  : option Configuration :=
  List.find (has_key k) t.

(** Modelled from the spec: [configurations.create_configuration], which is
    not part of this module; it persists a configuration entry, the table
    being unique-constrained on the key name so that a writer who comes
    second fails. *)
Definition create_configuration (c : Configuration) (t : list Configuration)
  : outcome (list Configuration) :=
  if List.existsb (has_key (key c)) t then Err IntegrityError else Ok (t ++ [c]).

Definition matches (c : criterion) (r : row) : bool :=
  match c with
  | ByName n => match r !! "name" with Some (JStr s) => String.eqb s n | _ => false end
  | ById i => match r !! "id" with Some (JStr s) => String.eqb s i | _ => false end
  end.

(** Modelled from the spec: the storage engine behind [session.execute] and
    the [db.BlockData] table, which are not part of this module.  A select
    returns the matching rows, an update sets the given columns on the
    matching rows, a delete removes them; the row count of an update or a
    delete is the number of rows that matched. *)
Definition execute (s : statement) (t : list row) : Result * list row :=
  match s with
  | Select c _ => (mkResult (filter (λ r, matches c r = true) t) (-1), t)
  | Update c values =>
      (mkResult [] (Z.of_nat (length (filter (λ r, matches c r = true) t))),
       (λ r, if matches c r then values ∪ r else r) <$> t)
  | Delete c =>
      (mkResult [] (Z.of_nat (length (filter (λ r, matches c r = true) t))),
       filter (λ r, matches c r ≠ true) t)
  end.

Definition handle {X} (c : io X) (w : world) : outcome X * world :=
  match c in io X return outcome X * world with
  | Getenv name => (Ok (environ w !! name), w)
  | Urandom => (Ok (tape w (drawn w)), with_drawn (S (drawn w)) w)
  | ReadConfigurationByKey k => (Ok (read_configuration_by_key k (configuration w)), w)
  | CreateConfiguration c =>
      match create_configuration c (configuration w) with
      | Ok t => (Ok (), with_configuration t w)
      | Err e => (Err e, w)
      end
  | Execute s =>
      let '(r, t) := execute s (block_data w) in (Ok r, with_block_data t w)
  | DictAlloc d => (Ok (length (heap w)), with_heap (heap w ++ [d]) w)
  | DictLoad l =>
      match heap w !! l with
      | Some d => (Ok d, w)
      | None => (Err SystemError, w)
      end
  | DictStore l d =>
      match heap w !! l with
      | Some _ => (Ok (), with_heap (<[l:=d]> (heap w)) w)
      | None => (Err SystemError, w)
      end
  end.

(** Running a program on its own. *)
Fixpoint exec {A} (p : Py A) (w : world) : outcome A * world * list event :=
  match p with
  | Return a => (Ok a, w, [])
  | Raise e => (Err e, w, [])
  | Vis c k =>
      match handle c w with
      | (Ok x, w') => let '(o, w'', t) := exec (k x) w' in (o, w'', event_of c ++ t)
      | (Err e, w') => (Err e, w', event_of c)
      end
  end.

(** Running a program while other sessions are at work: each time the
    program is suspended at an [await], the next of the [others] commits
    before the program goes on. *)
Fixpoint exec_among {A} (others : list (world → world)) (p : Py A) (w : world)
  : outcome A * world * list event :=
  match p with
  | Return a => (Ok a, w, [])
  | Raise e => (Err e, w, [])
  | Vis c k =>
      let '(o, w1) := handle c w in
      let w2 := if awaited c then default id (head others) w1 else w1 in
      let rest := if awaited c then tail others else others in
      match o with
      | Ok x => let '(o', w3, t) := exec_among rest (k x) w2 in (o', w3, event_of c ++ t)
      | Err e => (Err e, w2, event_of c)
      end
  end.

(** ** Python dicts *)

(** [dict(...)]: a new dict object. *)
Definition dict_new (d : gmap string pyval) : Py loc := call (DictAlloc d).

(** [d[k]] *)
Definition dict_getitem (d : loc) (k : string) : Py pyval :=
  m ← call (DictLoad d);
  match m !! k with
  | Some v => mret v
  | None => Raise (KeyError k)
  end.

(** [d[k] = v] *)
Definition dict_setitem (d : loc) (k : string) (v : pyval) : Py unit :=
  m ← call (DictLoad d);
  call (DictStore d (<[k:=v]> m)).

(** [d.pop(k)] *)
Definition dict_pop (d : loc) (k : string) : Py pyval :=
  m ← call (DictLoad d);
  match m !! k with
  | Some v => call (DictStore d (delete k m));; mret v
  | None => Raise (KeyError k)
  end.

(** [d.pop(k, default)] *)
Definition dict_pop_default (d : loc) (k : string) (default : pyval) : Py pyval :=
  m ← call (DictLoad d);
  match m !! k with
  | Some v => call (DictStore d (delete k m));; mret v
  | None => mret default
  end.

(** The items of a mapping unpacked as keyword arguments, as [dict] receives
    them in [unpack_blockdata]. *)
Definition keywords (v : pyval) : Py (gmap string pyval) :=
  match v with
  | PJson (JObj o) => mret (PJson <$> o)
  | PJson _ => Raise TypeError
  | PRef l => call (DictLoad l)
  end.

(** ** Packing and unpacking *)

Definition pack_blockdata (raw_block : loc) : Py loc :=
  blockdata ← dict_new ∅;
  v ← dict_pop raw_block "blockname";
  dict_setitem blockdata "name" v;;
  v ← dict_pop raw_block "blockref";
  dict_setitem blockdata "blockref" v;;
  dict_pop_default raw_block "blockid" PNone;;
  dict_setitem blockdata "data" (PRef raw_block);;
  mret blockdata.

Definition unpack_blockdata (blockdata : loc) : Py loc :=
  data ← dict_getitem blockdata "data";
  items ← keywords data;
  block ← dict_new items;
  v ← dict_pop_default blockdata "name" PNone;
  dict_setitem block "blockname" v;;
  v ← dict_pop_default blockdata "blockref" PNone;
  dict_setitem block "blockref" v;;
  v ← dict_pop_default blockdata "blockid" PNone;
  dict_setitem block "blockid" v;;
  mret block.

(** The items [dict] copies out of the value [v] on the heap [h]. *)
Definition items_of (h : list (gmap string pyval)) (v : pyval)
  : option (gmap string pyval) :=
  match v with
  | PJson (JObj o) => Some (PJson <$> o)
  | PJson _ => None
  | PRef l => h !! l
  end.


(** ** The libraries the module calls *)

(** [str.encode], [bytes.decode], [json.dumps], [json.loads] and
    [cryptography.fernet.Fernet].  [bytes_decode], [json_loads] and
    [fernet_decrypt] answer [None] where Python raises; [generate_key] and
    [fernet_encrypt] take the entropy they consume as an argument. *)
Class Libs := {
  str_encode : string → bytes;
  bytes_decode : bytes → option string;
  json_dumps : json → string;
  json_loads : string → option json;
  fernet_key_ok : bytes → bool;
  generate_key : N → bytes;
  fernet_encrypt : bytes → N → bytes → bytes;
  fernet_decrypt : bytes → bytes → option bytes
}.

(** What the module relies on: UTF-8 is a bijection between text and the
    byte strings that decode, JSON text loads back to the value it was
    dumped from, a Fernet token decrypts under the key it was made with,
    and keys and tokens are text. *)
Class LibsLaws (L : Libs) : Prop := {
  utf8_decode_encode : ∀ s, bytes_decode (str_encode s) = Some s;
  utf8_encode_decode : ∀ b s, bytes_decode b = Some s → str_encode s = b;
  json_loads_dumps : ∀ v, json_loads (json_dumps v) = Some v;
  fernet_decrypt_encrypt : ∀ k r m,
    fernet_key_ok k = true → fernet_decrypt k (fernet_encrypt k r m) = Some m;
  generate_key_ok : ∀ r, fernet_key_ok (generate_key r) = true;
  generate_key_text : ∀ r, is_Some (bytes_decode (generate_key r));
  token_text : ∀ k r m, is_Some (bytes_decode (fernet_encrypt k r m))
}.

(** A [Fernet] object holds its key. *)
Record fernet := mkFernet { fernet_key : bytes }.

Section block_data.
Context `{L : Libs}.

(** [Fernet(key)] *)
Definition Fernet (k : bytes) : Py fernet :=
  if fernet_key_ok k then mret (mkFernet k) else Raise ValueError.

(** [fernet.encrypt(data)] *)
Definition encrypt (f : fernet) (data : bytes) : Py bytes :=
  r ← call Urandom;
  mret (fernet_encrypt (fernet_key f) r data).

(** [fernet.decrypt(token)] *)
Definition decrypt (f : fernet) (token : bytes) : Py bytes :=
  match fernet_decrypt (fernet_key f) token with
  | Some data => mret data
  | None => Raise InvalidToken
  end.

(** [b.decode()] *)
Definition decode_bytes (b : bytes) : Py string :=
  match bytes_decode b with
  | Some s => mret s
  | None => Raise UnicodeDecodeError
  end.

(** [v.encode()] *)
Definition encode_str (v : pyval) : Py bytes :=
  match v with
  | PJson (JStr s) => mret (str_encode s)
  | _ => Raise AttributeError
  end.

(** [json.loads(s)] *)
Definition loads (s : string) : Py json :=
  match json_loads s with
  | Some v => mret v
  | None => Raise JSONDecodeError
  end.

(** What [json.loads(data.decode())] comes to. *)
Definition loaded (data : bytes) : outcome json :=
  match bytes_decode data with
  | Some s =>
      match json_loads s with
      | Some v => Ok v
      | None => Err JSONDecodeError
      end
  | None => Err UnicodeDecodeError
  end.

(** [v[k]] for a string [k] *)
Definition subscript (v : pyval) (k : string) : Py pyval :=
  match v with
  | PJson (JObj o) =>
      match o !! k with
      | Some x => mret (PJson x)
      | None => Raise (KeyError k)
      end
  | PJson _ => Raise TypeError
  | PRef l => dict_getitem l k
  end.

(** *** Key provider *)

Definition get_fernet_encryption : Py fernet :=
  environment_key ← call (Getenv "ORION_BLOCK_ENCRYPTION_KEY");
  match environment_key with
  | Some (String _ _ as environment_key) => Fernet (str_encode environment_key)
  | _ =>
      configured_key ← call (ReadConfigurationByKey "BLOCK_ENCRYPTION_KEY");
      encryption_key ←
        match configured_key with
        | None =>
            r ← call Urandom;
            let encryption_key := generate_key r in
            s ← decode_bytes encryption_key;
            let configured_key :=
              mkConfiguration "BLOCK_ENCRYPTION_KEY" (JObj {["fernet_key" := JStr s]}) in
            call (CreateConfiguration configured_key);;
            mret encryption_key
        | Some configured_key =>
            s ← subscript (PJson (value configured_key)) "fernet_key";
            encode_str s
        end;
      Fernet encryption_key
  end.

(** *** Envelope codec *)

Definition encrypt_blockdata (blockdata : json) : Py json :=
  fernet ← get_fernet_encryption;
  let byte_blob := str_encode (json_dumps blockdata) in
  token ← encrypt fernet byte_blob;
  s ← decode_bytes token;
  mret (JObj {["encrypted_blob" := JStr s]}).

Definition decrypt_blockdata (blockdata : pyval) : Py json :=
  fernet ← get_fernet_encryption;
  blob ← subscript blockdata "encrypted_blob";
  byte_blob ← encode_str blob;
  data ← decrypt fernet byte_blob;
  s ← decode_bytes data;
  loads s.

(** *** Block store *)

(** An attribute of an ORM object: the column of its row. *)
Definition attribute (r : row) (c : string) : json := default JNull (r !! c).

(** The dict the read operations build from the row they found, decrypt
    in place and unpack. *)
Definition as_block (blockdata : row) : Py loc :=
  blockdata_dict ← dict_new
    (<["name":=PJson (attribute blockdata "name")]>
       (<["blockref":=PJson (attribute blockdata "blockref")]>
          (<["blockid":=PJson (attribute blockdata "id")]>
             (<["data":=PJson (attribute blockdata "data")]> ∅))));
  data ← dict_getitem blockdata_dict "data";
  data ← decrypt_blockdata data;
  dict_setitem blockdata_dict "data" (PJson data);;
  unpack_blockdata blockdata_dict.

Definition read_block_data_as_block (block_data_id : string) : Py (option loc) :=
  result ← call (Execute (Select (ById block_data_id) true));
  match scalar result with
  | None => mret None
  | Some blockdata => block ← as_block blockdata; mret (Some block)
  end.

Definition read_block_data_by_name_as_block (name : string) : Py (option loc) :=
  result ← call (Execute (Select (ByName name) false));
  match scalar result with
  | None => mret None
  | Some blockdata => block ← as_block blockdata; mret (Some block)
  end.

Definition delete_block_data_by_name (name : string) : Py bool :=
  result ← call (Execute (Delete (ByName name)));
  mret (0 <? rowcount result)%Z.

Definition is_not_None (v : json) : bool :=
  match v with
  | JNull => false
  | _ => true
  end.

(** [block_data] is the update schema as the dict of the fields that were
    set on it ([block_data.dict(shallow=True, exclude_unset=True)]);
    [JNull] is [None]. *)
Definition update_block_data (name : string) (block_data : gmap string json) : Py bool :=
  let update_values := block_data in
  let update_values := filter (λ kv, is_not_None kv.2 = true) update_values in
  update_values ←
    match update_values !! "data" with
    | Some data =>
        data ← encrypt_blockdata data;
        mret (<["data":=data]> update_values)
    | None => mret update_values
    end;
  result ← call (Execute (Update (ByName name) update_values));
  mret (0 <? rowcount result)%Z.

(** *** Scenarios *)

(** [n] calls of a coroutine one after the other: the outcomes, the final
    world and all that was observed. *)
Fixpoint exec_times {A} (n : nat) (p : Py A) (w : world)
  : list (outcome A) * world * list event :=
  match n with
  | 0 => ([], w, [])
  | S n =>
      let '(o, w1, t1) := exec p w in
      let '(os, w2, t2) := exec_times n p w1 in
      (o :: os, w2, t1 ++ t2)
  end.

(** Pack a flat block, give the record the id the engine generated, and
    unpack it. *)
Definition pack_merge_unpack (raw_block : loc) (generated_id : pyval) : Py loc :=
  blockdata ← pack_blockdata raw_block;
  dict_setitem blockdata "blockid" generated_id;;
  unpack_blockdata blockdata.

(** What another session that resolves the key leaves behind. *)
Definition rival (w : world) : world := (exec get_fernet_encryption w).1.2.
End block_data.

(** The configuration entry that holds the key whose text is [s]. *)
Definition key_entry (s : string) : Configuration :=
  mkConfiguration "BLOCK_ENCRYPTION_KEY" (JObj {["fernet_key" := JStr s]}).

(** Is there a row of that name? *)
Definition has_row (name : string) (t : list row) : bool :=
  List.existsb (matches (ByName name)) t.

(** No row of the table matches [c]. *)
Definition no_match (c : criterion) (t : list row) : Prop :=
  Forall (λ r, matches c r = false) t.

(** ** A small instance of the libraries

    Stand-ins on which the model runs on concrete worlds: Latin-1 for the text
    codec and a numbering of JSON values for the JSON codec.  Keys and tokens
    are URL-safe base64 text as Fernet's are, written and read as Python's
    [base64] module does; the token itself is a toy, the plaintext between a
    version byte and a nonce in front and a keyed checksum behind, where
    Fernet has a timestamp, an IV, the AES ciphertext and an HMAC. *)

Abbreviation atom := (bool + Z + string)%type.

Definition float_to_tree (x : spec_float) : gen_tree atom :=
  match x with
  | S754_zero s => GenNode 4 [GenLeaf (inl (inl s))]
  | S754_infinity s => GenNode 5 [GenLeaf (inl (inl s))]
  | S754_nan => GenNode 6 []
  | S754_finite s m e =>
      GenNode 7 [GenLeaf (inl (inl s)); GenLeaf (inl (inr (Z.pos m))); GenLeaf (inl (inr e))]
  end.

Fixpoint json_to_tree (j : json) : gen_tree atom :=
  match j with
  | JNull => GenNode 0 []
  | JBool b => GenLeaf (inl (inl b))
  | JNum n => GenLeaf (inl (inr n))
  | JFloat x => float_to_tree x
  | JStr s => GenLeaf (inr s)
  | JArr l => GenNode 1 (json_to_tree <$> l)
  | JObj o =>
      GenNode 2 ((λ kv, GenNode 3 [GenLeaf (inr kv.1); kv.2])
                   <$> map_to_list (json_to_tree <$> o))
  end.

Fixpoint tree_to_json (t : gen_tree atom) : json :=
  match t with
  | GenLeaf (inl (inl b)) => JBool b
  | GenLeaf (inl (inr n)) => JNum n
  | GenLeaf (inr s) => JStr s
  | GenNode 1 ts => JArr (tree_to_json <$> ts)
  | GenNode 2 ts =>
      JObj (list_to_map
              ((λ t, match t with
                     | GenNode 3 [GenLeaf (inr k); v] => (k, tree_to_json v)
                     | _ => (EmptyString, JNull)
                     end) <$> ts))
  | GenNode 4 [GenLeaf (inl (inl s))] => JFloat (S754_zero s)
  | GenNode 5 [GenLeaf (inl (inl s))] => JFloat (S754_infinity s)
  | GenNode 6 [] => JFloat S754_nan
  | GenNode 7 [GenLeaf (inl (inl s)); GenLeaf (inl (inr (Z.pos m))); GenLeaf (inl (inr e))] =>
      JFloat (S754_finite s m e)
  | _ => JNull
  end.

Fixpoint bits (p : positive) : string :=
  match p with
  | xH => EmptyString
  | xO p => String "0"%char (bits p)
  | xI p => String "1"%char (bits p)
  end.

Fixpoint unbits (s : string) : option positive :=
  match s with
  | EmptyString => Some xH
  | String c s =>
      p ← unbits s;
      if Ascii.eqb c "0"%char then Some (xO p)
      else if Ascii.eqb c "1"%char then Some (xI p) else None
  end.

Fixpoint jsize (j : json) : nat :=
  match j with
  | JArr l => S (foldr (λ x n, jsize x + n) 0 l)
  | JObj o => S (map_fold (λ _ x n, jsize x + n) 0 o)
  | _ => 1
  end.

#[global] Instance byte_eq_dec : EqDecision byte := Byte.byte_eq_dec.

(** The byte whose code is [n]. *)
Definition chr (n : N) : byte := default x00 (Byte.of_N n).

(** The character that stands for the six bits [n] in the URL-safe
    alphabet: [A-Z], [a-z], [0-9], [-], [_]. *)
Definition b64_char (n : N) : byte :=
  chr (if n <? 26 then n + 65 else if n <? 52 then n + 71 else if n <? 62 then n - 4
       else if n =? 62 then 45 else 95)%N.

(** The six bits a character stands for, [None] for a character outside the
    alphabet.  [urlsafe_b64decode] turns [-] and [_] into [+] and [/] and
    decodes the standard alphabet, so it reads [+] and [/] as well. *)
Definition b64_value (c : byte) : option N :=
  let n := Byte.to_N c in
  (if (65 <=? n) && (n <=? 90) then Some (n - 65)
   else if (97 <=? n) && (n <=? 122) then Some (n - 71)
   else if (48 <=? n) && (n <=? 57) then Some (n + 4)
   else if (n =? 45) || (n =? 43) then Some 62
   else if (n =? 95) || (n =? 47) then Some 63
   else None)%N.

(** [base64.urlsafe_b64encode]: three bytes give four characters; a last
    group of one or two bytes is padded with [=]. *)
Fixpoint urlsafe_b64encode (s : bytes) : bytes :=
  match s with
  | [] => []
  | [a] =>
      let a := Byte.to_N a in
      [b64_char (a / 4); b64_char (a mod 4 * 16); "="%byte; "="%byte]
  | [a; b] =>
      let a := Byte.to_N a in
      let b := Byte.to_N b in
      [b64_char (a / 4); b64_char (a mod 4 * 16 + b / 16); b64_char (b mod 16 * 4);
       "="%byte]
  | a :: b :: c :: s =>
      let a := Byte.to_N a in
      let b := Byte.to_N b in
      let c := Byte.to_N c in
      b64_char (a / 4) :: b64_char (a mod 4 * 16 + b / 16)
        :: b64_char (b mod 16 * 4 + c / 64) :: b64_char (c mod 64)
        :: urlsafe_b64encode s
  end%N.

(** [binascii.a2b_base64], the decoder behind [base64.urlsafe_b64decode]
    ([quad_pos], [leftchar] and [pads] are its loop variables): a character
    outside the alphabet is skipped, the bits of the last character that do
    not fill a byte are dropped, decoding stops at the padding that completes
    a group of four, and an incomplete group is an error. *)
Fixpoint a2b_base64 (quad_pos : nat) (leftchar : N) (pads : nat) (s : bytes)
  : option bytes :=
  match s with
  | [] => if decide (quad_pos = 0) then Some [] else None
  | this_ch :: s =>
      if decide (this_ch = "="%byte) then
        if (2 <=? quad_pos)%nat then
          if (4 <=? quad_pos + S pads)%nat then Some []
          else a2b_base64 quad_pos leftchar (S pads) s
        else a2b_base64 quad_pos leftchar pads s
      else
        match b64_value this_ch with
        | None => a2b_base64 quad_pos leftchar pads s
        | Some this_ch =>
            match quad_pos with
            | 0 => a2b_base64 1 this_ch 0 s
            | 1 => cons (chr (leftchar * 4 + this_ch / 16)%N)
                     <$> a2b_base64 2 (this_ch mod 16)%N 0 s
            | 2 => cons (chr (leftchar * 16 + this_ch / 4)%N)
                     <$> a2b_base64 3 (this_ch mod 4)%N 0 s
            | _ => cons (chr (leftchar * 64 + this_ch)%N)
                     <$> a2b_base64 0 0%N 0 s
            end
        end
  end.

(** [base64.urlsafe_b64decode], [None] where it raises [binascii.Error]. *)
Definition urlsafe_b64decode (s : bytes) : option bytes := a2b_base64 0 0 0 s.

(** [os.urandom(n)], taken from the entropy [r]. *)
Fixpoint urandom (n : nat) (r : N) : bytes :=
  match n with
  | 0 => []
  | S n => chr (r mod 256) :: urandom n (r / 256)
  end.

(** [Fernet.generate_key]: 32 random bytes in URL-safe base64. *)
Definition small_key (r : N) : bytes := urlsafe_b64encode (urandom 32 r).

(** [Fernet(key)] accepts the text of 32 bytes. *)
Definition small_key_ok (k : bytes) : bool :=
  match urlsafe_b64decode k with
  | Some raw => bool_decide (length raw = 32)
  | None => false
  end.

Definition small_nonce (r : N) : byte := chr (r mod 256).

(** The checksum that stands for the HMAC: the sum of the key and of all
    that precedes the checksum. *)
Definition small_check (k body : bytes) : byte :=
  chr (foldr (λ b n, (Byte.to_N b + n) mod 256) 0 (k ++ body))%N.

Definition small_encrypt (k : bytes) (r : N) (data : bytes) : bytes :=
  let body := x80 :: small_nonce r :: data in
  urlsafe_b64encode (body ++ [small_check k body]).

(** The token is decoded, then its version byte and its checksum are
    verified. *)
Definition small_decrypt (k token : bytes) : option bytes :=
  raw ← urlsafe_b64decode token;
  match reverse raw with
  | check :: body =>
      let body := reverse body in
      match body with
      | version :: _ :: data =>
          if decide (version = x80 ∧ check = small_check k body) then Some data
          else None
      | _ => None
      end
  | [] => None
  end.

Definition small_libs : Libs := {|
  str_encode := String.list_byte_of_string;
  bytes_decode := λ b, Some (String.string_of_list_byte b);
  json_dumps := λ v, bits (encode (json_to_tree v));
  json_loads := λ s, p ← unbits s; t ← decode p; Some (tree_to_json t);
  fernet_key_ok := small_key_ok;
  generate_key := small_key;
  fernet_encrypt := small_encrypt;
  fernet_decrypt := small_decrypt
|}.

(** ** Concrete worlds *)



(** A fresh deployment: nothing in the environment, empty tables. *)
Definition fresh_world : world :=
  mkWorld ∅ [] [] [] (λ n, N.of_nat n) 0.

(** A key an operator put in the environment. *)
Definition operator_key : string := "MDEyMzQ1Njc4OWFiY2RlZjAxMjM0NTY3ODlhYmNkZWY=".

Definition operator_world : world :=
  mkWorld {["ORION_BLOCK_ENCRYPTION_KEY" := operator_key]} [] [] [] (λ n, N.of_nat n) 0.

(** A caller holding the flat block of the create scenario. *)
Definition flat_block : gmap string pyval :=
  <["blockname":=PJson (JStr "k1")]>
    (<["blockref":=PJson (JStr "secret-block")]>
       (<["token":=PJson (JStr "abc")]> ∅)).

Definition caller_world : world := with_heap [flat_block] fresh_world.

(** A record as the read operations build it, whose payload happens to carry
    a [blockid] of its own. *)
Definition stored_record : gmap string pyval :=
  <["name":=PJson (JStr "k1")]>
    (<["blockref":=PJson (JStr "secret-block")]>
       (<["blockid":=PJson (JStr "id-1")]>
          (<["data":=PJson (JObj (<["token":=JStr "abc"]> (<["blockid":=JStr "stale"]> ∅)))]> ∅))).

Definition reader_world : world := with_heap [stored_record] fresh_world.

(** A table with the one block [k1]. *)
Definition row_k1 : row :=
  <["id":=JStr "id-1"]>
    (<["name":=JStr "k1"]>
       (<["blockref":=JStr "secret-block"]>
          (<["data":=JObj {["encrypted_blob" := JStr "opaque"]}]> ∅))).

Definition stored_world : world := with_block_data [row_k1] fresh_world.

(** The partial update of the scenario, with a field left at [None]. *)
Definition partial_update : gmap string json :=
  <["data":=JObj {["token" := JStr "xyz"]}]> (<["name":=JNull]> ∅).





(** ** Further scenarios *)

(** Unpack the same record twice. *)
Definition unpack_twice (blockdata : loc) : Py (loc * loc) :=
  first ← unpack_blockdata blockdata;
  second ← unpack_blockdata blockdata;
  mret (first, second).

(** Pack a flat block, write a field into the flat block afterwards, and
    read that field through the record: [blockdata["data"][k]]. *)
Definition pack_then_write (raw_block : loc) (k : string) (v : pyval) : Py pyval :=
  blockdata ← pack_blockdata raw_block;
  dict_setitem raw_block k v;;
  data ← dict_getitem blockdata "data";
  subscript data k.

(** A record whose payload is a dict object of its own. *)
Definition payload_dict : gmap string pyval :=
  <["token":=PJson (JStr "abc")]> ∅.

Definition record_by_reference : gmap string pyval :=
  <["name":=PJson (JStr "k1")]>
    (<["blockref":=PJson (JStr "secret-block")]>
       (<["blockid":=PJson (JStr "id-1")]>
          (<["data":=PRef 0]> ∅))).

Definition holder_world : world :=
  with_heap [payload_dict; record_by_reference] fresh_world.

(** The world with another environment. *)
Definition with_environ (e : gmap string string) (w : world) : world :=
  mkWorld e (configuration w) (block_data w) (heap w) (tape w) (drawn w).

(** A deployment whose stored key entry lacks the key. *)
Definition broken_world : world :=
  with_configuration [mkConfiguration "BLOCK_ENCRYPTION_KEY" (JObj ∅)] fresh_world.

(** A deployment with an override that is set but empty. *)
Definition blank_override_world : world :=
  with_environ {["ORION_BLOCK_ENCRYPTION_KEY" := EmptyString]} fresh_world.

(** Replace the payload of a block, then read the block by its name. *)
Definition update_then_read `{L : Libs} (name : string) (data : json) : Py (option loc) :=
  update_block_data name {["data" := data]};;
  read_block_data_by_name_as_block name.

(** The flat block the read operations make of a row and its decrypted
    payload. *)
Definition flat_of (r : row) (payload : gmap string json) : gmap string pyval :=
  <["blockid":=PJson (attribute r "id")]>
    (<["blockref":=PJson (attribute r "blockref")]>
       (<["blockname":=PJson (attribute r "name")]> (PJson <$> payload))).

(** The deployment after the partial update of the scenario. *)
Definition updated_world : world :=
  (exec (update_block_data (L:=small_libs) "k1" partial_update) stored_world).1.2.

(** ** Running programs: general facts *)

Lemma exec_bind {A B} (p : Py A) (f : A → Py B) (w : world) :
  exec (p ≫= f) w =
  match exec p w with
  | (Ok a, w1, t1) => let '(o, w2, t2) := exec (f a) w1 in (o, w2, t1 ++ t2)
  | (Err e, w1, t1) => (Err e, w1, t1)
  end.
Proof.
  revert w. induction p as [a|e|X c k IH]; intros w; simpl.
  - by destruct (exec (f a) w) as [[o w2] t2].
  - done.
  - destruct (handle c w) as [[x|e] w']; [|done]. unfold mbind, Py_bind in *.
    rewrite IH. destruct (exec (k x) w') as [[[a|e] w1] t1]; [|done].
    destruct (exec (f a) w1) as [[o w2] t2]. by rewrite (assoc_L (++)).
Qed.

Lemma exec_among_nil {A} (p : Py A) (w : world) : exec_among [] p w = exec p w.
Proof.
  revert w. induction p as [a|e|X c k IH]; intros w; simpl; [done..|].
  destruct (handle c w) as [[x|e] w1]; destruct (awaited c); simpl;
    by rewrite ?IH.
Qed.

Lemma exec_silent {A B} (p : Py A) (f : A → Py B) (w w1 : world) (a : A) :
  exec p w = (Ok a, w1, []) → exec (p ≫= f) w = exec (f a) w1.
Proof.
  intros H. rewrite exec_bind, H. by destruct (exec (f a) w1) as [[o w2] t2].
Qed.

Lemma exec_raises {A B} (p : Py A) (f : A → Py B) (w w1 : world) e t :
  exec p w = (Err e, w1, t) → exec (p ≫= f) w = (Err e, w1, t).
Proof. intros H. by rewrite exec_bind, H. Qed.

(** ** Dict operations on the heap *)

Lemma exec_dict_new d w :
  exec (dict_new d) w = (Ok (length (heap w)), with_heap (heap w ++ [d]) w, []).
Proof. done. Qed.

Lemma exec_dict_getitem d k m v w :
  heap w !! d = Some m → m !! k = Some v →
  exec (dict_getitem d k) w = (Ok v, w, []).
Proof. intros Hd Hk. unfold dict_getitem. simpl. by rewrite Hd, Hk. Qed.

Lemma exec_dict_getitem_missing d k m w :
  heap w !! d = Some m → m !! k = None →
  exec (dict_getitem d k) w = (Err (KeyError k), w, []).
Proof. intros Hd Hk. unfold dict_getitem. simpl. by rewrite Hd, Hk. Qed.

Lemma exec_dict_setitem d k v m w :
  heap w !! d = Some m →
  exec (dict_setitem d k v) w = (Ok (), with_heap (<[d:=<[k:=v]> m]> (heap w)) w, []).
Proof. intros Hd. unfold dict_setitem. simpl. rewrite Hd. simpl. by rewrite Hd. Qed.

Lemma exec_dict_pop d k m v w :
  heap w !! d = Some m → m !! k = Some v →
  exec (dict_pop d k) w = (Ok v, with_heap (<[d:=delete k m]> (heap w)) w, []).
Proof. intros Hd Hk. unfold dict_pop. simpl. by rewrite Hd, Hk; simpl; rewrite Hd. Qed.

Lemma exec_dict_pop_missing d k m w :
  heap w !! d = Some m → m !! k = None →
  exec (dict_pop d k) w = (Err (KeyError k), w, []).
Proof. intros Hd Hk. unfold dict_pop. simpl. by rewrite Hd, Hk. Qed.

Lemma with_heap_same w : with_heap (heap w) w = w.
Proof. by destruct w. Qed.

Lemma exec_dict_pop_default d k v0 m w :
  heap w !! d = Some m →
  exec (dict_pop_default d k v0) w =
  (Ok (default v0 (m !! k)), with_heap (<[d:=delete k m]> (heap w)) w, []).
Proof.
  intros Hd. unfold dict_pop_default. simpl. rewrite Hd.
  destruct (m !! k) as [v|] eqn:Hk; simpl.
  - by rewrite Hd.
  - by rewrite delete_id, list_insert_id, with_heap_same.
Qed.

Lemma heap_with_heap h w : heap (with_heap h w) = h.
Proof. done. Qed.

Lemma with_heap_with_heap h h' w : with_heap h (with_heap h' w) = with_heap h w.
Proof. done. Qed.

Section heap_shape.
Context {D : Type}.
Implicit Types (h : list D) (a b x : D).

Lemma lookup_old h b l : l < length h → (h ++ [b]) !! l = h !! l.
Proof. intros. by apply lookup_app_l. Qed.

Lemma lookup_new h h' b : length h' = length h → (h' ++ [b]) !! length h = Some b.
Proof. intros. by apply list_lookup_middle. Qed.

Lemma insert_old h b l x : l < length h → <[l:=x]> (h ++ [b]) = <[l:=x]> h ++ [b].
Proof. intros. by apply insert_app_l. Qed.

Lemma insert_new h h' b x : length h' = length h → <[length h:=x]> (h' ++ [b]) = h' ++ [x].
Proof.
  intros Hlen. rewrite <-Hlen, insert_app_r_alt by lia.
  by rewrite Nat.sub_diag.
Qed.
End heap_shape.

Ltac heap_lookup :=
  rewrite ?heap_with_heap;
  first
  [ eassumption
  | apply lookup_new; by rewrite ?length_insert
  | rewrite lookup_old by (rewrite ?length_insert; lia);
    first [ eassumption | apply list_lookup_insert_eq; lia ] ].

Ltac heap_norm :=
  rewrite ?with_heap_with_heap, ?heap_with_heap;
  repeat first
  [ rewrite insert_new by (by rewrite ?length_insert)
  | rewrite insert_old by (rewrite ?length_insert; lia)
  | rewrite list_insert_insert_eq ].

Ltac py_run lem :=
  erewrite exec_silent
    by (eapply lem; [heap_lookup | try (rewrite ?lookup_delete_ne by done; eassumption) ..]);
  heap_norm.

Lemma exec_keywords v items w :
  items_of (heap w) v = Some items → exec (keywords v) w = (Ok items, w, []).
Proof.
  destruct v as [[]|l]; simpl; intros H; try done.
  - by injection H as <-.
  - by rewrite H.
Qed.

(** ** Packing and unpacking: what they do to the heap *)

Lemma pack_blockdata_spec F f n r w :
  heap w !! F = Some f → f !! "blockname" = Some n → f !! "blockref" = Some r →
  exec (pack_blockdata F) w =
    (Ok (length (heap w)),
     with_heap
       (<[F:=delete "blockid" (delete "blockref" (delete "blockname" f))]> (heap w)
        ++ [<["data":=PRef F]> (<["blockref":=r]> (<["name":=n]> ∅))]) w,
     []).
Proof.
  intros HF Hn Hr. unfold pack_blockdata.
  assert (F < length (heap w)) by (by eapply lookup_lt_Some).
  erewrite exec_silent by apply exec_dict_new.
  py_run exec_dict_pop.
  py_run exec_dict_setitem.
  py_run exec_dict_pop.
  py_run exec_dict_setitem.
  py_run exec_dict_pop_default.
  py_run exec_dict_setitem.
  done.
Qed.

Lemma unpack_blockdata_spec bd rec d items w :
  heap w !! bd = Some rec → rec !! "data" = Some d →
  items_of (heap w) d = Some items →
  exec (unpack_blockdata bd) w =
    (Ok (length (heap w)),
     with_heap
       (<[bd:=delete "blockid" (delete "blockref" (delete "name" rec))]> (heap w)
        ++ [<["blockid":=default PNone (rec !! "blockid")]>
              (<["blockref":=default PNone (rec !! "blockref")]>
                 (<["blockname":=default PNone (rec !! "name")]> items))]) w,
     []).
Proof.
  intros Hbd Hd Hitems. unfold unpack_blockdata.
  assert (bd < length (heap w)) by (by eapply lookup_lt_Some).
  erewrite exec_silent by (by eapply exec_dict_getitem).
  erewrite exec_silent by (by eapply exec_keywords).
  erewrite exec_silent by apply exec_dict_new.
  py_run exec_dict_pop_default.
  py_run exec_dict_setitem.
  py_run exec_dict_pop_default.
  py_run exec_dict_setitem.
  py_run exec_dict_pop_default.
  py_run exec_dict_setitem.
  by rewrite !lookup_delete_ne by done.
Qed.

(** ** The small instance obeys the laws *)

Lemma json_ind (P : json → Prop) :
  P JNull → (∀ b, P (JBool b)) → (∀ n, P (JNum n)) → (∀ x, P (JFloat x)) →
  (∀ s, P (JStr s)) →
  (∀ l, Forall P l → P (JArr l)) →
  (∀ o, map_Forall (λ _, P) o → P (JObj o)) →
  ∀ j, P j.
Proof.
  intros Hnull Hbool Hnum Hfloat Hstr Harr Hobj j.
  remember (jsize j) as n eqn:Hn. revert j Hn.
  induction (lt_wf n) as [n _ IH]. intros [| | | | |l|o] ->; simpl in *; auto.
  - apply Harr. induction l as [|x l IHl]; constructor.
    + eapply IH; [|done]. simpl. lia.
    + apply IHl. intros m Hm j ->. eapply IH; [|done]. simpl. lia.
  - apply Hobj. revert IH.
    apply (map_fold_weak_ind
             (λ r o, (∀ m, m < S r → ∀ j, m = jsize j → P j) → map_Forall (λ _, P) o)).
    + intros _. apply map_Forall_empty.
    + intros k x m r Hk IHm IH. apply map_Forall_insert; [done|]. split.
      * eapply IH; [|done]. lia.
      * apply IHm. intros m' Hm' j ->. eapply IH; [|done]. lia.
Qed.

Lemma tree_to_json_to_tree j : tree_to_json (json_to_tree j) = j.
Proof.
  induction j as [| | |x| |l IH|o IH] using json_ind; try done; simpl.
  - by destruct x.
  - f_equal. rewrite <-list_fmap_compose. rewrite <-(list_fmap_id l) at 2.
    apply Forall_fmap_ext_1. induction IH; constructor; auto.
  - f_equal. rewrite <-list_fmap_compose.
    erewrite (list_fmap_ext _ (prod_map id tree_to_json)) by (by intros i [k t]).
    rewrite list_to_map_fmap, list_to_map_to_list, <-map_fmap_compose.
    rewrite <-(map_fmap_id o) at 2. apply map_fmap_ext.
    intros k x Hk. apply (IH k x Hk).
Qed.

Lemma unbits_bits p : unbits (bits p) = Some p.
Proof. induction p as [p IH|p IH|]; simpl; by rewrite ?IH. Qed.

Lemma b64_value_char n :
  (n < 64)%N → b64_value (b64_char n) = Some n ∧ b64_char n ≠ "="%byte.
Proof.
  intros Hn.
  assert (Hall : forallb (λ i, bool_decide
            (b64_value (b64_char (N.of_nat i)) = Some (N.of_nat i)
             ∧ b64_char (N.of_nat i) ≠ "="%byte)) (seq 0 64) = true)
    by (vm_compute; reflexivity).
  rewrite forallb_forall in Hall.
  assert (Hi : In (N.to_nat n) (seq 0 64)) by (apply in_seq; lia).
  apply Hall in Hi. rewrite N2Nat.id in Hi. by apply bool_decide_eq_true_1 in Hi.
Qed.

Lemma chr_to_N b : chr (Byte.to_N b) = b.
Proof. unfold chr. by rewrite Byte.of_to_N. Qed.

Ltac euclid := zify; Z.to_euclidean_division_equations; lia.

Ltac b64_step :=
  match goal with
  | |- context [b64_char ?n] =>
      let H := fresh in
      assert (H : (n < 64)%N) by euclid;
      destruct (b64_value_char n H) as [?Hv ?Hc]; clear H;
      generalize dependent (b64_char n); intros
  end.

(** Decoding reads back what encoding wrote. *)
Lemma urlsafe_b64decode_encode s : urlsafe_b64decode (urlsafe_b64encode s) = Some s.
Proof.
  unfold urlsafe_b64decode.
  remember (length s) as n eqn:Hn. revert s Hn.
  induction (lt_wf n) as [n _ IH]. intros s ->.
  destruct s as [|a [|b [|c s]]]; [done|..]; cbn [urlsafe_b64encode].
  all: pose proof (Byte.to_N_bounded a).
  2,3: pose proof (Byte.to_N_bounded b).
  3: pose proof (Byte.to_N_bounded c).
  all: repeat b64_step.
  all: cbn [a2b_base64].
  all: repeat (rewrite decide_False by done).
  all: repeat (rewrite ?Hv, ?Hv0, ?Hv1, ?Hv2; cbn [a2b_base64];
               repeat (rewrite decide_False by done)).
  all: rewrite ?decide_True by done; simpl.
  3: rewrite (IH (length s)) by (done || simpl; lia); simpl.
  all: repeat match goal with
       | |- context [chr ?n] =>
           lazymatch n with
           | Byte.to_N _ => fail
           | _ => first
               [ replace n with (Byte.to_N a) by euclid
               | replace n with (Byte.to_N b) by euclid
               | replace n with (Byte.to_N c) by euclid ]
           end
       end.
  all: by rewrite !chr_to_N.
Qed.

Lemma length_urandom n r : length (urandom n r) = n.
Proof. revert r. induction n as [|n IH]; intros r; simpl; by rewrite ?IH. Qed.

Lemma small_key_ok_key r : small_key_ok (small_key r) = true.
Proof.
  unfold small_key_ok, small_key.
  by rewrite urlsafe_b64decode_encode, length_urandom.
Qed.

Lemma small_decrypt_encrypt k r m : small_decrypt k (small_encrypt k r m) = Some m.
Proof.
  unfold small_decrypt, small_encrypt.
  cbv zeta. rewrite urlsafe_b64decode_encode. cbn [mbind option_bind].
  rewrite reverse_snoc, reverse_involutive.
  by rewrite decide_True.
Qed.

Lemma small_laws : LibsLaws small_libs.
Proof.
  split; simpl.
  - intros s. by rewrite String.string_of_list_byte_of_string.
  - intros b s [= <-]. by rewrite String.list_byte_of_string_of_list_byte.
  - intros v. rewrite unbits_bits. simpl. rewrite decode_encode. simpl.
    by rewrite tree_to_json_to_tree.
  - intros k r m _. apply small_decrypt_encrypt.
  - apply small_key_ok_key.
  - intros r. by eexists.
  - intros k r m. by eexists.
Qed.

(** ** Python's equality on JSON data *)




(** ** Key provider *)

Lemma find_None_existsb {A} (f : A → bool) (l : list A) :
  List.find f l = None → List.existsb f l = false.
Proof.
  induction l as [|x l IH]; simpl; [done|].
  destruct (f x); [done|]. exact IH.
Qed.

Lemma find_Some_existsb {A} (f : A → bool) (l : list A) x :
  List.find f l = Some x → List.existsb f l = true.
Proof.
  induction l as [|y l IH]; simpl; [done|].
  destruct (f y); [done|]. exact IH.
Qed.

Lemma find_app_None {A} (f : A → bool) (l : list A) x :
  List.find f l = None → f x = true → List.find f (l ++ [x]) = Some x.
Proof.
  induction l as [|y l IH]; simpl; intros Hl Hx.
  - by rewrite Hx.
  - destruct (f y); [done|]. by apply IH.
Qed.

Section key_provider.
Context `{L : Libs}.

Lemma exec_Fernet k w :
  exec (Fernet k) w =
  (if fernet_key_ok k then Ok (mkFernet k) else Err ValueError, w, []).
Proof. unfold Fernet. by destruct (fernet_key_ok k). Qed.

Lemma get_fernet_encryption_configured w c o s :
  environ w !! "ORION_BLOCK_ENCRYPTION_KEY" = None →
  read_configuration_by_key "BLOCK_ENCRYPTION_KEY" (configuration w) = Some c →
  value c = JObj o → o !! "fernet_key" = Some (JStr s) →
  exec get_fernet_encryption w =
  (if fernet_key_ok (str_encode s) then Ok (mkFernet (str_encode s)) else Err ValueError,
   w, [EvReadConfiguration "BLOCK_ENCRYPTION_KEY"]).
Proof.
  intros Henv Hc Hv Hs. unfold get_fernet_encryption. simpl.
  rewrite Henv. simpl. rewrite Hc. simpl. rewrite Hv. simpl. rewrite Hs. simpl.
  by rewrite exec_Fernet.
Qed.

Lemma get_fernet_encryption_first_use w s :
  environ w !! "ORION_BLOCK_ENCRYPTION_KEY" = None →
  read_configuration_by_key "BLOCK_ENCRYPTION_KEY" (configuration w) = None →
  bytes_decode (generate_key (tape w (drawn w))) = Some s →
  exec get_fernet_encryption w =
  (if fernet_key_ok (generate_key (tape w (drawn w)))
   then Ok (mkFernet (generate_key (tape w (drawn w)))) else Err ValueError,
   with_configuration (configuration w ++ [key_entry s]) (with_drawn (S (drawn w)) w),
   [EvReadConfiguration "BLOCK_ENCRYPTION_KEY"; EvCreateConfiguration (key_entry s)]).
Proof.
  intros Henv Hc Hs. unfold get_fernet_encryption. simpl.
  rewrite Henv. simpl. rewrite Hc. simpl. unfold decode_bytes. rewrite Hs. simpl.
  unfold create_configuration. simpl.
  rewrite (find_None_existsb _ _ Hc). simpl.
  by rewrite exec_Fernet.
Qed.

Lemma exec_times_configured n w c o s :
  environ w !! "ORION_BLOCK_ENCRYPTION_KEY" = None →
  read_configuration_by_key "BLOCK_ENCRYPTION_KEY" (configuration w) = Some c →
  value c = JObj o → o !! "fernet_key" = Some (JStr s) →
  fernet_key_ok (str_encode s) = true →
  exec_times n get_fernet_encryption w =
  (replicate n (Ok (mkFernet (str_encode s))), w,
   replicate n (EvReadConfiguration "BLOCK_ENCRYPTION_KEY")).
Proof.
  intros Henv Hc Hv Hs Hok. induction n as [|n IH]; [done|]. cbn [exec_times].
  rewrite (get_fernet_encryption_configured w c o s), Hok, IH by done.
  done.
Qed.

(** C6: with the environment override present and not empty, the key is
    the encoded override, checked by [Fernet] and returned at once; the
    call leaves the world as it was and neither reads nor writes the
    configuration table (nothing is observed). *)
Theorem get_fernet_encryption_override w s :
  environ w !! "ORION_BLOCK_ENCRYPTION_KEY" = Some s → s ≠ EmptyString →
  exec get_fernet_encryption w =
  (if fernet_key_ok (str_encode s) then Ok (mkFernet (str_encode s)) else Err ValueError,
   w, []).
Proof.
  intros Henv Hs. unfold get_fernet_encryption. simpl. rewrite Henv.
  destruct s as [|a s]; [done|]. by rewrite exec_Fernet.
Qed.

Context {HL : LibsLaws L}.

(** On first use, with no override and no configured key, a key is
    resolved. *)
Lemma get_fernet_encryption_resolves w :
  environ w !! "ORION_BLOCK_ENCRYPTION_KEY" = None →
  read_configuration_by_key "BLOCK_ENCRYPTION_KEY" (configuration w) = None →
  ∃ f w0 t0, exec get_fernet_encryption w = (Ok f, w0, t0).
Proof.
  intros Henv Hc. destruct (generate_key_text (tape w (drawn w))) as [s Hs].
  rewrite (get_fernet_encryption_first_use w s), generate_key_ok by done.
  by eexists _, _, _.
Qed.

(** C5: [n] calls one after the other, with no override in the
    environment and an empty configuration table, all return the same key;
    the table ends with the one entry that the first call created, and no
    later call creates another. *)
Theorem key_resolution_idempotent n w :
  0 < n →
  environ w !! "ORION_BLOCK_ENCRYPTION_KEY" = None →
  configuration w = [] →
  ∃ k s w',
    exec_times n get_fernet_encryption w =
      (replicate n (Ok (mkFernet k)), w',
       EvReadConfiguration "BLOCK_ENCRYPTION_KEY"
         :: EvCreateConfiguration (key_entry s)
         :: replicate (n - 1) (EvReadConfiguration "BLOCK_ENCRYPTION_KEY"))
    ∧ configuration w' = [key_entry s]
    ∧ str_encode s = k.
Proof.
  intros Hn Henv Hconf. destruct n as [|n]; [lia|]. cbn [exec_times].
  destruct (generate_key_text (tape w (drawn w))) as [s Hs].
  rewrite (get_fernet_encryption_first_use w s), generate_key_ok, Hconf
    by (done || by rewrite Hconf).
  rewrite (exec_times_configured n _ (key_entry s) {["fernet_key" := JStr s]} s); try done.
  - exists (generate_key (tape w (drawn w))), s. eexists.
    rewrite (utf8_encode_decode _ _ Hs). simpl. by rewrite Nat.sub_0_r.
  - rewrite (utf8_encode_decode _ _ Hs). apply generate_key_ok.
Qed.

(** C2, as the code has it: when the call finds no configured key and
    another session persists one before the call's own write, the write
    fails on the unique key name and that failure is what the caller gets;
    the configuration is read once, before the write, and not again. *)
Theorem lost_race_propagates w other rest :
  environ w !! "ORION_BLOCK_ENCRYPTION_KEY" = None →
  read_configuration_by_key "BLOCK_ENCRYPTION_KEY" (configuration w) = None →
  is_Some (read_configuration_by_key "BLOCK_ENCRYPTION_KEY" (configuration (other w))) →
  ∃ s w',
    bytes_decode (generate_key (tape (other w) (drawn (other w)))) = Some s
    ∧ exec_among (other :: rest) get_fernet_encryption w =
      (Err IntegrityError, w',
       [EvReadConfiguration "BLOCK_ENCRYPTION_KEY";
        EvCreateConfiguration (key_entry s)]).
Proof.
  intros Henv Hc [c' Hc']. unfold get_fernet_encryption. simpl.
  rewrite Henv. simpl. rewrite Hc. simpl.
  destruct (generate_key_text (tape (other w) (drawn (other w)))) as [s Hs].
  unfold decode_bytes. rewrite Hs. simpl.
  unfold create_configuration. simpl. rewrite (find_Some_existsb _ _ _ Hc').
  by eexists _, _.
Qed.
End key_provider.

(** ** Envelope codec *)

Section codec.
Context `{L : Libs} {HL : LibsLaws L}.

(** Once a call has resolved a key, every later call in a world with the
    same environment and configuration resolves the same key. *)
Lemma get_fernet_encryption_settles w f w0 t0 :
  exec get_fernet_encryption w = (Ok f, w0, t0) →
  fernet_key_ok (fernet_key f) = true ∧
  ∀ w', environ w' = environ w0 → configuration w' = configuration w0 →
        ∃ t, exec get_fernet_encryption w' = (Ok f, w', t).
Proof.
  unfold get_fernet_encryption. simpl.
  destruct (environ w !! "ORION_BLOCK_ENCRYPTION_KEY") as [[|a s]|] eqn:Henv; simpl.
  2:{ rewrite exec_Fernet.
      destruct (fernet_key_ok (str_encode (String a s))) eqn:Hok; [|done].
      intros [= <- <- <-]. split; [done|]. intros w' Henv' _. simpl.
      rewrite Henv', Henv, exec_Fernet, Hok. by eexists. }
  all: destruct (read_configuration_by_key _ (configuration w)) as [c|] eqn:Hc; simpl.
  all: try (destruct (value c) as [| | | | | |o] eqn:Hv; simpl; try done;
            destruct (o !! "fernet_key") as [[| | | |s| |]|] eqn:Hs; simpl; try done;
            rewrite exec_Fernet;
            destruct (fernet_key_ok (str_encode s)) eqn:Hok; [|done];
            intros [= <- <- <-]; split; [done|]; intros w' Henv' Hc'; simpl;
            rewrite Henv', Henv; simpl; rewrite Hc', Hc; simpl; rewrite Hv; simpl;
            rewrite Hs; simpl; rewrite exec_Fernet, Hok; by eexists).
  all: unfold decode_bytes;
       destruct (bytes_decode (generate_key (tape w (drawn w)))) as [s|] eqn:Hs;
       simpl; [|done];
       unfold create_configuration; simpl; rewrite (find_None_existsb _ _ Hc); simpl;
       rewrite exec_Fernet, generate_key_ok;
       intros [= <- <- <-]; split; [apply generate_key_ok|]; intros w' Henv' Hc';
       simpl in *; rewrite Henv', Henv; simpl; rewrite Hc'; simpl;
       unfold read_configuration_by_key;
       rewrite (find_app_None _ _ _ Hc) by done; simpl;
       rewrite lookup_singleton_eq; simpl;
       rewrite (utf8_encode_decode _ _ Hs), exec_Fernet, generate_key_ok; by eexists.
Qed.

Lemma exec_encrypt_blockdata w payload f w0 t0 s :
  exec get_fernet_encryption w = (Ok f, w0, t0) →
  bytes_decode (fernet_encrypt (fernet_key f) (tape w0 (drawn w0))
                  (str_encode (json_dumps payload))) = Some s →
  exec (encrypt_blockdata payload) w =
  (Ok (JObj {["encrypted_blob" := JStr s]}), with_drawn (S (drawn w0)) w0, t0).
Proof.
  intros Hkey Hs. unfold encrypt_blockdata.
  rewrite exec_bind, Hkey. simpl. unfold decode_bytes. rewrite Hs. simpl.
  by rewrite (right_id_L [] (++)).
Qed.

(** What [decrypt_blockdata] does with an envelope once the key is resolved:
    Fernet decides on the blob, and what it yields is decoded and loaded. *)
Lemma exec_decrypt_blockdata w f w0 t0 o s :
  exec get_fernet_encryption w = (Ok f, w0, t0) →
  o !! "encrypted_blob" = Some (JStr s) →
  exec (decrypt_blockdata (PJson (JObj o))) w =
  (match fernet_decrypt (fernet_key f) (str_encode s) with
   | Some data => loaded data
   | None => Err InvalidToken
   end, w0, t0).
Proof.
  intros Hkey Ho. unfold decrypt_blockdata.
  rewrite exec_bind, Hkey. simpl. rewrite Ho. simpl.
  unfold decrypt, loaded.
  destruct (fernet_decrypt (fernet_key f) (str_encode s)) as [data|]; simpl;
    [|by rewrite (right_id_L [] (++))].
  unfold decode_bytes. destruct (bytes_decode data) as [s'|]; simpl;
    [|by rewrite (right_id_L [] (++))].
  unfold loads. destruct (json_loads s'); simpl; by rewrite (right_id_L [] (++)).
Qed.

(** A blob that Fernet rejects makes [decrypt_blockdata] raise
    [InvalidToken]; no value is returned in its place. *)
Lemma decrypt_blockdata_rejects w f w0 t0 o s :
  exec get_fernet_encryption w = (Ok f, w0, t0) →
  o !! "encrypted_blob" = Some (JStr s) →
  fernet_decrypt (fernet_key f) (str_encode s) = None →
  exec (decrypt_blockdata (PJson (JObj o))) w = (Err InvalidToken, w0, t0).
Proof.
  intros Hkey Ho Hbad. by rewrite (exec_decrypt_blockdata w f w0 t0 o s), Hbad.
Qed.

(** The token made for a payload decrypts, decodes and loads to the
    payload. *)
Lemma loaded_token k r (payload : json) s :
  fernet_key_ok k = true →
  bytes_decode (fernet_encrypt k r (str_encode (json_dumps payload))) = Some s →
  fernet_decrypt k (str_encode s) = Some (str_encode (json_dumps payload))
  ∧ loaded (str_encode (json_dumps payload)) = Ok payload.
Proof.
  intros Hok Hs. split.
  - by rewrite (utf8_encode_decode _ _ Hs), fernet_decrypt_encrypt.
  - unfold loaded. by rewrite utf8_decode_encode, json_loads_dumps.
Qed.

(** Encrypting where a key resolves: the envelope holds the text of the
    token made for the payload under that key, and a later call resolves the
    same key without changing the world. *)
Lemma encrypt_blockdata_resolved w (payload : json) f w0 t0 :
  exec get_fernet_encryption w = (Ok f, w0, t0) →
  ∃ s,
    bytes_decode (fernet_encrypt (fernet_key f) (tape w0 (drawn w0))
                    (str_encode (json_dumps payload))) = Some s
    ∧ exec (encrypt_blockdata payload) w =
      (Ok (JObj {["encrypted_blob" := JStr s]}), with_drawn (S (drawn w0)) w0, t0)
    ∧ fernet_key_ok (fernet_key f) = true
    ∧ ∀ w', environ w' = environ w0 → configuration w' = configuration w0 →
            ∃ t, exec get_fernet_encryption w' = (Ok f, w', t).
Proof.
  intros Hkey. destruct (get_fernet_encryption_settles _ _ _ _ Hkey) as [Hok Hagain].
  destruct (token_text (fernet_key f) (tape w0 (drawn w0))
              (str_encode (json_dumps payload))) as [s Hs].
  exists s. split_and!; [done|by eapply exec_encrypt_blockdata|done|done].
Qed.


End codec.

(** ** Packing and unpacking: properties *)

(** X1: without [blockname], [pack_blockdata] raises [KeyError] at its
    first pop; the flat block is as it was (only the empty record has been
    allocated). *)
Lemma pack_blockdata_requires_blockname raw_block f w :
  heap w !! raw_block = Some f → f !! "blockname" = None →
  exec (pack_blockdata raw_block) w =
    (Err (KeyError "blockname"), with_heap (heap w ++ [∅]) w, []).
Proof.
  intros HF Hn. unfold pack_blockdata.
  assert (raw_block < length (heap w)) by (by eapply lookup_lt_Some).
  erewrite exec_silent by apply exec_dict_new.
  erewrite exec_raises; [done|].
  eapply exec_dict_pop_missing; [heap_lookup|done].
Qed.

(** X2: with [blockname] but without [blockref], [pack_blockdata] raises
    [KeyError] at its second pop, after [blockname] has already been taken
    out of the caller's flat block: the failed call leaves the flat block
    without its name. *)
Lemma pack_blockdata_requires_blockref raw_block f n w :
  heap w !! raw_block = Some f →
  f !! "blockname" = Some n → f !! "blockref" = None →
  exec (pack_blockdata raw_block) w =
    (Err (KeyError "blockref"),
     with_heap (<[raw_block:=delete "blockname" f]> (heap w) ++ [<["name":=n]> ∅]) w,
     []).
Proof.
  intros HF Hn Hr. unfold pack_blockdata.
  assert (raw_block < length (heap w)) by (by eapply lookup_lt_Some).
  erewrite exec_silent by apply exec_dict_new.
  py_run exec_dict_pop.
  py_run exec_dict_setitem.
  erewrite exec_raises; [done|].
  eapply exec_dict_pop_missing; [heap_lookup|by rewrite lookup_delete_ne].
Qed.

(** C10: when [pack_blockdata] returns, the dict it was given has lost
    [blockname], [blockref] and [blockid], and the [data] field of the record
    it returns is a reference to that very dict, a different object from the
    record. *)
Theorem pack_blockdata_mutates_argument raw_block f n r w :
  heap w !! raw_block = Some f →
  f !! "blockname" = Some n → f !! "blockref" = Some r →
  ∃ blockdata w' f' rec,
    exec (pack_blockdata raw_block) w = (Ok blockdata, w', [])
    ∧ heap w' !! raw_block = Some f'
    ∧ f' = delete "blockid" (delete "blockref" (delete "blockname" f))
    ∧ f' !! "blockname" = None ∧ f' !! "blockref" = None ∧ f' !! "blockid" = None
    ∧ heap w' !! blockdata = Some rec
    ∧ rec !! "data" = Some (PRef raw_block)
    ∧ blockdata ≠ raw_block.
Proof.
  intros HF Hn Hr.
  assert (raw_block < length (heap w)) by (by eapply lookup_lt_Some).
  eexists _, _, _, _. split; [by eapply pack_blockdata_spec|]. simpl.
  split_and!.
  - rewrite lookup_old by (rewrite length_insert; lia).
    apply list_lookup_insert_eq. lia.
  - done.
  - by simplify_map_eq.
  - by simplify_map_eq.
  - by simplify_map_eq.
  - apply lookup_new. by rewrite length_insert.
  - by simplify_map_eq.
  - lia.
Qed.

(** C8: for a record that has a name, a block reference, an id and a
    mapping as data, [unpack_blockdata] returns a new dict: the items of the
    data with [blockname], [blockref] and [blockid] set from the record.  The
    three reserved keys read as the record's values whatever the data held
    under them; every other key reads as in the data. *)
Theorem unpack_blockdata_injects blockdata rec n r i d items w :
  heap w !! blockdata = Some rec →
  rec !! "name" = Some n → rec !! "blockref" = Some r → rec !! "blockid" = Some i →
  rec !! "data" = Some d → items_of (heap w) d = Some items →
  ∃ block w' flat,
    exec (unpack_blockdata blockdata) w = (Ok block, w', [])
    ∧ heap w' !! block = Some flat
    ∧ flat = <["blockid":=i]> (<["blockref":=r]> (<["blockname":=n]> items))
    ∧ flat !! "blockname" = Some n ∧ flat !! "blockref" = Some r
    ∧ flat !! "blockid" = Some i
    ∧ ∀ k, k ≠ "blockname" → k ≠ "blockref" → k ≠ "blockid" → flat !! k = items !! k.
Proof.
  intros Hbd Hn Hr Hi Hd Hitems.
  eexists _, _, _. split; [by eapply unpack_blockdata_spec|]. simpl.
  rewrite Hn, Hr, Hi. simpl. split_and!.
  - replace (length (heap w)) with
      (length (<[blockdata:=delete "blockid" (delete "blockref" (delete "name" rec))]> (heap w)))
      by apply length_insert.
    by apply list_lookup_middle.
  - done.
  - by simplify_map_eq.
  - by simplify_map_eq.
  - by simplify_map_eq.
  - intros k ???. by simplify_map_eq.
Qed.

Lemma restore_reserved (f : gmap string pyval) n r x :
  f !! "blockname" = Some n → f !! "blockref" = Some r →
  <["blockid":=x]> (<["blockref":=r]> (<["blockname":=n]>
     (delete "blockid" (delete "blockref" (delete "blockname" f)))))
  = <["blockid":=x]> f.
Proof.
  intros Hn Hr. apply map_eq. intros k.
  destruct (decide (k = "blockid")) as [->|]; [by simplify_map_eq|].
  destruct (decide (k = "blockref")) as [->|]; [by simplify_map_eq|].
  destruct (decide (k = "blockname")) as [->|]; by simplify_map_eq.
Qed.

(** C3: packing a flat block that has [blockname] and [blockref], giving
    the record a generated id and unpacking it returns a dict equal to the
    flat block with [blockid] set to the generated id. *)
Theorem pack_unpack_inverse raw_block f n r generated_id w :
  heap w !! raw_block = Some f →
  f !! "blockname" = Some n → f !! "blockref" = Some r →
  ∃ block w',
    exec (pack_merge_unpack raw_block generated_id) w = (Ok block, w', [])
    ∧ heap w' !! block = Some (<["blockid":=generated_id]> f).
Proof.
  intros HF Hn Hr. unfold pack_merge_unpack.
  assert (raw_block < length (heap w)) by (by eapply lookup_lt_Some).
  erewrite exec_silent by (by eapply pack_blockdata_spec).
  py_run exec_dict_setitem.
  eexists _, _. split.
  - eapply unpack_blockdata_spec.
    + rewrite heap_with_heap. apply lookup_new. by rewrite length_insert.
    + by simplify_map_eq.
    + simpl. rewrite lookup_old by (rewrite length_insert; lia).
      apply list_lookup_insert_eq. lia.
  - simpl. erewrite lookup_new by (by rewrite length_insert).
    f_equal. rewrite <-(restore_reserved f n r generated_id) by done.
    by simplify_map_eq.
Qed.

(** ** Block store *)

Lemma with_block_data_same w : with_block_data (block_data w) w = w.
Proof. by destruct w. Qed.

Lemma filter_no_match c (t : list row) :
  no_match c t → filter (λ r, matches c r = true) t = [].
Proof.
  induction 1 as [|r t Hr _ IH]; [done|].
  rewrite filter_cons_False by (by rewrite Hr). exact IH.
Qed.

Lemma filter_keeps_all c (t : list row) :
  no_match c t → filter (λ r, matches c r ≠ true) t = t.
Proof.
  induction 1 as [|r t Hr _ IH]; [done|].
  rewrite filter_cons_True by (by rewrite Hr). by rewrite IH.
Qed.

Lemma no_match_filter c (t : list row) :
  no_match c (filter (λ r, matches c r ≠ true) t).
Proof.
  apply Forall_forall. intros r [Hr _]%list_elem_of_filter.
  by destruct (matches c r).
Qed.

Lemma no_match_has_row name (t : list row) :
  no_match (ByName name) t ↔ has_row name t = false.
Proof.
  unfold no_match, has_row. induction t as [|r t IH]; simpl.
  - split; [done|constructor].
  - rewrite Forall_cons, orb_false_iff, IH. done.
Qed.

Lemma rowcount_positive c (t : list row) :
  (0 <? Z.of_nat (length (filter (λ r, matches c r = true) t)))%Z
  = List.existsb (matches c) t.
Proof.
  induction t as [|r t IH]; [done|]. simpl.
  destruct (matches c r) eqn:Hr.
  - rewrite filter_cons_True by done. simpl. by apply Z.ltb_lt; lia.
  - rewrite filter_cons_False by (by rewrite Hr). exact IH.
Qed.

Section block_store.
Context `{L : Libs}.

Lemma exec_select_none c for_update (w : world) :
  no_match c (block_data w) →
  handle (Execute (Select c for_update)) w = (Ok (mkResult [] (-1)), w).
Proof.
  intros Hc. simpl. by rewrite (filter_no_match _ _ Hc), with_block_data_same.
Qed.

Lemma read_by_name_absent name w :
  no_match (ByName name) (block_data w) →
  exec (read_block_data_by_name_as_block name) w =
  (Ok None, w, [EvExecute (Select (ByName name) false)]).
Proof.
  intros Hc. unfold read_block_data_by_name_as_block.
  cbn [exec call mbind Py_bind bind]. by rewrite (exec_select_none _ _ _ Hc).
Qed.

Lemma read_by_id_absent id w :
  no_match (ById id) (block_data w) →
  exec (read_block_data_as_block id) w =
  (Ok None, w, [EvExecute (Select (ById id) true)]).
Proof.
  intros Hc. unfold read_block_data_as_block.
  cbn [exec call mbind Py_bind bind]. by rewrite (exec_select_none _ _ _ Hc).
Qed.

Lemma exec_delete name w :
  exec (delete_block_data_by_name name) w =
  (Ok (has_row name (block_data w)),
   with_block_data (filter (λ r, matches (ByName name) r ≠ true) (block_data w)) w,
   [EvExecute (Delete (ByName name))]).
Proof.
  unfold delete_block_data_by_name, call.
  cbn [mbind Py_bind bind exec handle execute event_of rowcount app mret Py_ret].
  by rewrite rowcount_positive.
Qed.

Lemma exec_delete_absent name w :
  no_match (ByName name) (block_data w) →
  exec (delete_block_data_by_name name) w =
  (Ok false, w, [EvExecute (Delete (ByName name))]).
Proof.
  intros Hc. rewrite exec_delete, (proj1 (no_match_has_row _ _) Hc).
  by rewrite (filter_keeps_all _ _ Hc), with_block_data_same.
Qed.

(** C9: a missing record is a result, not an exception.  Reading by a
    name or by an id that no row has returns [None] and leaves the world as
    it was.  Deleting by name returns whether some row had the name (so
    [false] when none had) and removes exactly those rows; deleting again
    then returns [false] and reading the name then returns [None]. *)
Theorem absence_is_a_result name id w :
  let gone := with_block_data
                (filter (λ r, matches (ByName name) r ≠ true) (block_data w)) w in
  (no_match (ByName name) (block_data w) →
     exec (read_block_data_by_name_as_block name) w =
     (Ok None, w, [EvExecute (Select (ByName name) false)]))
  ∧ (no_match (ById id) (block_data w) →
     exec (read_block_data_as_block id) w =
     (Ok None, w, [EvExecute (Select (ById id) true)]))
  ∧ exec (delete_block_data_by_name name) w =
    (Ok (has_row name (block_data w)), gone, [EvExecute (Delete (ByName name))])
  ∧ (has_row name (block_data w) = false ↔ no_match (ByName name) (block_data w))
  ∧ (has_row name (block_data w) = true ↔ block_data gone ≠ block_data w)
  ∧ exec (delete_block_data_by_name name) gone =
    (Ok false, gone, [EvExecute (Delete (ByName name))])
  ∧ exec (read_block_data_by_name_as_block name) gone =
    (Ok None, gone, [EvExecute (Select (ByName name) false)]).
Proof.
  intros gone.
  assert (Hgone : no_match (ByName name) (block_data gone)) by apply no_match_filter.
  split_and!.
  - apply read_by_name_absent.
  - apply read_by_id_absent.
  - apply exec_delete.
  - by rewrite no_match_has_row.
  - split.
    + intros Hrow Heq. rewrite <-Heq in Hrow.
      apply no_match_has_row in Hgone. congruence.
    + intros Hne. destruct (has_row name (block_data w)) eqn:Hrow; [done|].
      destruct Hne. apply no_match_has_row in Hrow.
      unfold gone. cbn [block_data with_block_data].
      by apply filter_keeps_all.
  - by apply exec_delete_absent.
  - by apply read_by_name_absent.
Qed.

Lemma lookup_provided (upd : gmap string json) k v :
  filter (λ kv, is_not_None kv.2 = true) upd !! k = Some v
  ↔ upd !! k = Some v ∧ v ≠ JNull.
Proof.
  rewrite map_lookup_filter_Some. simpl.
  destruct v; simpl; split; intros [? ?]; split; done.
Qed.

Lemma exec_update_statement name values w :
  exec (result ← call (Execute (Update (ByName name) values));
        mret (0 <? rowcount result)%Z) w =
  (Ok (has_row name (block_data w)),
   with_block_data
     ((λ r, if matches (ByName name) r then values ∪ r else r) <$> block_data w) w,
   [EvExecute (Update (ByName name) values)]).
Proof.
  unfold call.
  cbn [mbind Py_bind bind exec handle execute event_of rowcount app mret Py_ret].
  by rewrite rowcount_positive.
Qed.

Lemma exec_update_block_data name (block_data_update : gmap string json) w :
  exec (update_block_data name block_data_update) w =
  let provided := filter (λ kv, is_not_None kv.2 = true) block_data_update in
  match provided !! "data" with
  | None =>
      exec (result ← call (Execute (Update (ByName name) provided));
            mret (0 <? rowcount result)%Z) w
  | Some data =>
      match exec (encrypt_blockdata data) w with
      | (Ok envelope, w1, t1) =>
          let '(o, w2, t2) :=
            exec (result ← call (Execute (Update (ByName name)
                                            (<["data":=envelope]> provided)));
                  mret (0 <? rowcount result)%Z) w1 in
          (o, w2, t1 ++ t2)
      | (Err e, w1, t1) => (Err e, w1, t1)
      end
  end.
Proof.
  unfold update_block_data. cbn zeta.
  destruct (filter _ block_data_update !! "data") as [data|]; [|done].
  rewrite exec_bind, exec_bind.
  destruct (exec (encrypt_blockdata data) w) as [[[envelope|e] w1] t1]; [|done].
  cbn [exec mret Py_ret]. by rewrite (right_id_L [] (++)).
Qed.

Lemma exec_encrypt_blockdata_raises w (payload : json) e w0 t0 :
  exec get_fernet_encryption w = (Err e, w0, t0) →
  exec (encrypt_blockdata payload) w = (Err e, w0, t0).
Proof. intros Hkey. unfold encrypt_blockdata. by rewrite exec_bind, Hkey. Qed.

Context {HL : LibsLaws L}.

(** C7: [update_block_data] keeps of the fields it is given those that
    are not [None], and executes one update statement, on the rows of that
    name, whose values are these fields.  If [data] is among them, it is
    that value which is encrypted before the update: the statement carries,
    in place of the value, the envelope whose blob is the text of the Fernet
    token made, under the resolved key, for the JSON text of that value, so
    that decrypting what the statement carries returns the value; every
    other field is carried as it was given.  If the key cannot be resolved
    the update raises and no statement is executed.  The result is whether a
    row had the name. *)
Theorem update_block_data_spec name (block_data_update : gmap string json) w :
  let provided := filter (λ kv, is_not_None kv.2 = true) block_data_update in
  let assign values t :=
    (λ r : row, if matches (ByName name) r then values ∪ r else r) <$> t in
  (∀ k v, provided !! k = Some v ↔ block_data_update !! k = Some v ∧ v ≠ JNull)
  ∧ (provided !! "data" = None →
     exec (update_block_data name block_data_update) w =
     (Ok (has_row name (block_data w)),
      with_block_data (assign provided (block_data w)) w,
      [EvExecute (Update (ByName name) provided)]))
  ∧ (∀ data f w0 t0,
     provided !! "data" = Some data →
     exec get_fernet_encryption w = (Ok f, w0, t0) →
     ∃ token w1 returned w2 t2,
       let envelope := JObj {["encrypted_blob" := JStr token]} in
       let values := <["data":=envelope]> provided in
       bytes_decode (fernet_encrypt (fernet_key f) (tape w0 (drawn w0))
                       (str_encode (json_dumps data))) = Some token
       ∧ exec (update_block_data name block_data_update) w =
         (Ok (has_row name (block_data w0)), w1,
          t0 ++ [EvExecute (Update (ByName name) values)])
       ∧ w1 = with_block_data (assign values (block_data w0))
                (with_drawn (S (drawn w0)) w0)
       ∧ (∀ k, k ≠ "data" → values !! k = provided !! k)
       ∧ exec (decrypt_blockdata (PJson envelope)) w1 = (Ok returned, w2, t2)
       ∧ returned = data)
  ∧ (∀ data e w0 t0,
     provided !! "data" = Some data →
     exec get_fernet_encryption w = (Err e, w0, t0) →
     exec (update_block_data name block_data_update) w = (Err e, w0, t0)).
Proof.
  intros provided assign. split_and!.
  - apply lookup_provided.
  - intros Hdata. rewrite exec_update_block_data. cbn zeta. fold provided.
    rewrite Hdata. apply exec_update_statement.
  - intros data f w0 t0 Hdata Hkey.
    destruct (encrypt_blockdata_resolved w data f w0 t0 Hkey)
      as (s & Hs & Henc & Hok & Hagain).
    destruct (loaded_token _ _ _ _ Hok Hs) as [Hdec Hload].
    set (values := <["data":=JObj {["encrypted_blob" := JStr s]}]> provided).
    set (w1 := with_block_data (assign values (block_data w0))
                 (with_drawn (S (drawn w0)) w0)).
    destruct (Hagain w1) as [t Hagain']; [done..|].
    exists s, w1, data, w1, t. cbn zeta. split_and!.
    + done.
    + rewrite exec_update_block_data. cbn zeta. fold provided.
      rewrite Hdata, Henc, exec_update_statement. done.
    + done.
    + intros k Hk. by apply lookup_insert_ne.
    + rewrite (exec_decrypt_blockdata _ _ _ _ _ s Hagain') by apply lookup_singleton_eq.
      by rewrite Hdec, Hload.
    + done.
  - intros data e w0 t0 Hdata Hkey.
    rewrite exec_update_block_data. cbn zeta. fold provided.
    by rewrite Hdata, (exec_encrypt_blockdata_raises _ _ _ _ _ Hkey).
Qed.
End block_store.

(** ** Runs on concrete worlds *)

Section examples.
#[local] Existing Instance small_libs.



Lemma lost_race_propagates_witness :
  ∃ s w',
    bytes_decode (generate_key (tape (rival fresh_world) (drawn (rival fresh_world))))
      = Some s
    ∧ exec_among [rival] get_fernet_encryption fresh_world =
      (Err IntegrityError, w',
       [EvReadConfiguration "BLOCK_ENCRYPTION_KEY";
        EvCreateConfiguration (key_entry s)]).
Proof.
  apply (lost_race_propagates (HL:=small_laws) fresh_world rival []).
  - reflexivity.
  - reflexivity.
  - vm_compute. eexists. reflexivity.
Defined.

(** C2, as the specification has it, fails: on a fresh deployment a
    session finds no key; a rival session persists its key while the first
    is suspended; the first session's write then fails, and the session
    raises [IntegrityError] instead of returning the rival's key. *)
Lemma lost_race_is_not_retried :
  environ fresh_world !! "ORION_BLOCK_ENCRYPTION_KEY" = None
  ∧ read_configuration_by_key "BLOCK_ENCRYPTION_KEY" (configuration fresh_world) = None
  ∧ ∃ s,
      read_configuration_by_key "BLOCK_ENCRYPTION_KEY"
        (configuration (rival fresh_world)) = Some (key_entry s)
      ∧ (exec_among [rival] get_fernet_encryption fresh_world).1.1
        = Err IntegrityError
      ∧ (exec_among [rival] get_fernet_encryption fresh_world).1.1
        ≠ Ok (mkFernet (str_encode s)).
Proof.
  split; [reflexivity|]. split; [reflexivity|].
  eexists. split; [vm_compute; reflexivity|].
  split; [vm_compute; reflexivity|]. vm_compute. discriminate.
Defined.



Lemma pack_unpack_inverse_witness :
  ∃ block w',
    exec (pack_merge_unpack 0 (PJson (JStr "X"))) caller_world = (Ok block, w', [])
    ∧ heap w' !! block = Some (<["blockid":=PJson (JStr "X")]> flat_block).
Proof.
  apply (pack_unpack_inverse 0 flat_block (PJson (JStr "k1")) (PJson (JStr "secret-block")));
    vm_compute; reflexivity.
Defined.

Lemma key_resolution_idempotent_witness :
  ∃ k s w',
    exec_times 3 get_fernet_encryption fresh_world =
      (replicate 3 (Ok (mkFernet k)), w',
       EvReadConfiguration "BLOCK_ENCRYPTION_KEY"
         :: EvCreateConfiguration (key_entry s)
         :: replicate (3 - 1) (EvReadConfiguration "BLOCK_ENCRYPTION_KEY"))
    ∧ configuration w' = [key_entry s]
    ∧ str_encode s = k.
Proof.
  apply (key_resolution_idempotent (HL:=small_laws) 3 fresh_world);
    [lia | reflexivity | reflexivity].
Defined.

Lemma get_fernet_encryption_override_witness :
  exec get_fernet_encryption operator_world =
  (Ok (mkFernet (str_encode operator_key)), operator_world, []).
Proof.
  rewrite (get_fernet_encryption_override operator_world operator_key);
    [reflexivity | reflexivity | discriminate].
Defined.

Lemma update_block_data_spec_witness :
  ∃ f w0 t0 token w1 returned w2 t2,
    exec get_fernet_encryption stored_world = (Ok f, w0, t0)
    ∧ bytes_decode (fernet_encrypt (fernet_key f) (tape w0 (drawn w0))
                      (str_encode (json_dumps (JObj {["token" := JStr "xyz"]}))))
      = Some token
    ∧ exec (update_block_data "k1" partial_update) stored_world =
      (Ok true, w1,
       t0 ++ [EvExecute (Update (ByName "k1")
                           {["data" := JObj {["encrypted_blob" := JStr token]}]})])
    ∧ block_data w1 = [<["data":=JObj {["encrypted_blob" := JStr token]}]> row_k1]
    ∧ exec (decrypt_blockdata (PJson (JObj {["encrypted_blob" := JStr token]}))) w1
      = (Ok returned, w2, t2)
    ∧ returned = JObj {["token" := JStr "xyz"]}.
Proof.
  destruct (update_block_data_spec (HL:=small_laws) "k1" partial_update stored_world)
    as (_ & _ & Hdata & _).
  edestruct Hdata
    as (token & w1 & returned & w2 & t2 & Htoken & Hexec & Hw1 & _ & Hdec & Hreturned);
    [vm_compute; reflexivity|vm_compute; reflexivity|].
  cbn zeta in Hexec, Hw1, Hdec.
  eexists _, _, _, token, w1, returned, w2, t2.
  split; [vm_compute; reflexivity|].
  split; [exact Htoken|].
  split; [etrans; [exact Hexec|]; vm_compute; reflexivity|].
  split; [rewrite Hw1; vm_compute; reflexivity|].
  split; [exact Hdec|exact Hreturned].
Defined.

Lemma unpack_blockdata_injects_witness :
  ∃ block w' flat,
    exec (unpack_blockdata 0) reader_world = (Ok block, w', [])
    ∧ heap w' !! block = Some flat
    ∧ flat !! "blockname" = Some (PJson (JStr "k1"))
    ∧ flat !! "blockref" = Some (PJson (JStr "secret-block"))
    ∧ flat !! "blockid" = Some (PJson (JStr "id-1"))
    ∧ flat !! "token" = Some (PJson (JStr "abc")).
Proof.
  destruct (unpack_blockdata_injects 0 stored_record
              (PJson (JStr "k1")) (PJson (JStr "secret-block")) (PJson (JStr "id-1"))
              (PJson (JObj (<["token":=JStr "abc"]> (<["blockid":=JStr "stale"]> ∅))))
              (PJson <$> <["token":=JStr "abc"]> (<["blockid":=JStr "stale"]> ∅))
              reader_world)
    as (block & w' & flat & Hexec & Hheap & _ & Hn & Hr & Hi & Hrest);
    try (vm_compute; reflexivity).
  exists block, w', flat.
  split_and!; [exact Hexec | exact Hheap | exact Hn | exact Hr | exact Hi |].
  rewrite Hrest by discriminate. vm_compute. reflexivity.
Defined.

Lemma absence_is_a_result_witness :
  exec (read_block_data_by_name_as_block "k2") stored_world =
    (Ok None, stored_world, [EvExecute (Select (ByName "k2") false)])
  ∧ exec (read_block_data_as_block "id-2") stored_world =
    (Ok None, stored_world, [EvExecute (Select (ById "id-2") true)])
  ∧ exec (delete_block_data_by_name "k1") stored_world =
    (Ok true, fresh_world, [EvExecute (Delete (ByName "k1"))])
  ∧ exec (delete_block_data_by_name "k1") fresh_world =
    (Ok false, fresh_world, [EvExecute (Delete (ByName "k1"))])
  ∧ exec (read_block_data_by_name_as_block "k1") fresh_world =
    (Ok None, fresh_world, [EvExecute (Select (ByName "k1") false)]).
Proof.
  destruct (absence_is_a_result "k2" "id-2" stored_world)
    as (Hname & Hid & _).
  destruct (absence_is_a_result "k1" "id-1" stored_world)
    as (_ & _ & Hdelete & _ & _ & Hagain & Hread).
  split_and!.
  - apply Hname. repeat constructor.
  - apply Hid. repeat constructor.
  - exact Hdelete.
  - exact Hagain.
  - exact Hread.
Defined.

Lemma pack_blockdata_mutates_argument_witness :
  ∃ blockdata w' rec,
    exec (pack_blockdata 0) caller_world = (Ok blockdata, w', [])
    ∧ heap w' !! 0 = Some (<["token":=PJson (JStr "abc")]> ∅)
    ∧ heap w' !! blockdata = Some rec
    ∧ rec !! "data" = Some (PRef 0).
Proof.
  destruct (pack_blockdata_mutates_argument 0 flat_block
              (PJson (JStr "k1")) (PJson (JStr "secret-block")) caller_world)
    as (blockdata & w' & f' & rec & Hexec & HF & -> & _ & _ & _ & Hrec & Hdata & _);
    try (vm_compute; reflexivity).
  exists blockdata, w', rec.
  split_and!;
    [exact Hexec | etrans; [exact HF | vm_compute; reflexivity] | exact Hrec | exact Hdata].
Defined.
End examples.

(** ** More on packing and unpacking *)

Lemma lookup_two_new {D} (h h' : list D) (a b : D) :
  length h' = length h →
  ((h' ++ [a]) ++ [b]) !! length h = Some a
  ∧ ((h' ++ [a]) ++ [b]) !! S (length h) = Some b.
Proof.
  intros Hlen. split.
  - rewrite lookup_app_l by (rewrite length_app; simpl; lia).
    by apply lookup_new.
  - replace (S (length h)) with (length (h' ++ [a]))
      by (rewrite length_app; simpl; lia).
    by apply list_lookup_middle.
Qed.

(** X3: [unpack_blockdata] takes [name], [blockref] and [blockid] out of
    the record it is given.  Unpacking the same record a second time
    therefore returns the payload with all three reserved fields [None],
    while the first result has the record's values. *)
Theorem unpack_blockdata_consumes_record blockdata rec n r i d items w :
  heap w !! blockdata = Some rec →
  rec !! "name" = Some n → rec !! "blockref" = Some r → rec !! "blockid" = Some i →
  rec !! "data" = Some d → d ≠ PRef blockdata →
  items_of (heap w) d = Some items →
  ∃ first second w',
    exec (unpack_twice blockdata) w = (Ok (first, second), w', [])
    ∧ heap w' !! first
      = Some (<["blockid":=i]> (<["blockref":=r]> (<["blockname":=n]> items)))
    ∧ heap w' !! second
      = Some (<["blockid":=PNone]> (<["blockref":=PNone]> (<["blockname":=PNone]> items)))
    ∧ heap w' !! blockdata
      = Some (delete "blockid" (delete "blockref" (delete "name" rec))).
Proof.
  intros Hbd Hn Hr Hi Hd Hself Hitems. unfold unpack_twice.
  assert (blockdata < length (heap w)) by (by eapply lookup_lt_Some).
  erewrite exec_silent by (by eapply unpack_blockdata_spec).
  rewrite Hn, Hr, Hi. cbn [default].
  erewrite exec_silent.
  2:{ eapply unpack_blockdata_spec.
      - rewrite heap_with_heap, lookup_old by (rewrite length_insert; lia).
        apply list_lookup_insert_eq. lia.
      - rewrite !lookup_delete_ne by done. exact Hd.
      - rewrite heap_with_heap. destruct d as [j|l]; [exact Hitems|].
        simpl in *. assert (l < length (heap w)) by (by eapply lookup_lt_Some).
        rewrite lookup_old by (rewrite length_insert; lia).
        rewrite list_lookup_insert_ne by congruence. exact Hitems. }
  set (rec' := delete "blockid" (delete "blockref" (delete "name" rec))).
  assert (rec' !! "name" = None) as -> by (by subst rec'; simplify_map_eq).
  assert (rec' !! "blockref" = None) as -> by (by subst rec'; simplify_map_eq).
  assert (rec' !! "blockid" = None) as -> by (by subst rec'; simplify_map_eq).
  cbn [default]. unfold id. rewrite with_heap_with_heap.
  eexists _, _, _. split; [reflexivity|]. cbn [heap with_heap].
  rewrite insert_old, list_insert_insert_eq by (rewrite length_insert; lia).
  rewrite length_app, length_insert. simpl.
  replace (length (heap w) + 1) with (S (length (heap w))) by lia.
  match goal with
  | |- context [(?h' ++ [?a]) ++ [?b]] =>
      destruct (lookup_two_new (heap w) h' a b) as [H1 H2];
        [by rewrite length_insert|]
  end.
  split_and!; [exact H1 | exact H2 |].
  rewrite !lookup_app_l by (rewrite ?length_app, length_insert; simpl; lia).
  rewrite list_lookup_insert_eq by lia.
  f_equal. apply map_eq. intros k. subst rec'.
  destruct (decide (k = "blockid")) as [->|]; [by simplify_map_eq|].
  destruct (decide (k = "blockref")) as [->|]; [by simplify_map_eq|].
  destruct (decide (k = "name")) as [->|]; by simplify_map_eq.
Qed.

(** X4: [unpack_blockdata] looks at [data] before it touches anything else:
    a record without [data] raises [KeyError], a record whose [data] is not a
    mapping raises [TypeError], and in both cases the record keeps its
    [name], [blockref] and [blockid]. *)
Theorem unpack_blockdata_requires_mapping blockdata rec w :
  heap w !! blockdata = Some rec →
  (rec !! "data" = None →
     exec (unpack_blockdata blockdata) w = (Err (KeyError "data"), w, []))
  ∧ (∀ j, rec !! "data" = Some (PJson j) → (∀ o, j ≠ JObj o) →
     exec (unpack_blockdata blockdata) w = (Err TypeError, w, [])).
Proof.
  intros Hbd. split.
  - intros Hd. unfold unpack_blockdata.
    erewrite exec_raises; [done|]. by eapply exec_dict_getitem_missing.
  - intros j Hd Hj. unfold unpack_blockdata.
    erewrite exec_silent by (by eapply exec_dict_getitem).
    erewrite exec_raises; [done|].
    destruct j; try done. by destruct (Hj o).
Qed.

(** X5: when the record's [data] is a dict object, [unpack_blockdata]
    returns a new object, different from that dict and from the record; the
    reserved fields go into the copy and the data dict itself is left as it
    was. *)
Theorem unpack_blockdata_copies_data blockdata rec l items w :
  heap w !! blockdata = Some rec → rec !! "data" = Some (PRef l) →
  l ≠ blockdata → heap w !! l = Some items →
  ∃ block w' flat,
    exec (unpack_blockdata blockdata) w = (Ok block, w', [])
    ∧ block ≠ l ∧ block ≠ blockdata
    ∧ heap w' !! l = Some items
    ∧ heap w' !! block = Some flat
    ∧ is_Some (flat !! "blockname") ∧ is_Some (flat !! "blockref")
    ∧ is_Some (flat !! "blockid").
Proof.
  intros Hbd Hd Hl Hitems.
  assert (blockdata < length (heap w)) by (by eapply lookup_lt_Some).
  assert (l < length (heap w)) by (by eapply lookup_lt_Some).
  eexists _, _, _. split; [by eapply unpack_blockdata_spec|].
  cbn [heap with_heap]. split_and!; try lia.
  - rewrite lookup_old by (rewrite length_insert; lia).
    by rewrite list_lookup_insert_ne.
  - apply lookup_new. by rewrite length_insert.
  - by simplify_map_eq.
  - by simplify_map_eq.
  - by simplify_map_eq.
Qed.

(** X6: the record [pack_blockdata] returns shares its [data] with the
    caller: a field written into the flat block after packing is read back
    through the record's [data]. *)
Theorem pack_blockdata_shares_data raw_block f n r k v w :
  heap w !! raw_block = Some f →
  f !! "blockname" = Some n → f !! "blockref" = Some r →
  ∃ w', exec (pack_then_write raw_block k v) w = (Ok v, w', []).
Proof.
  intros HF Hn Hr. unfold pack_then_write.
  assert (raw_block < length (heap w)) by (by eapply lookup_lt_Some).
  erewrite exec_silent by (by eapply pack_blockdata_spec).
  erewrite exec_silent.
  2:{ eapply exec_dict_setitem. rewrite heap_with_heap.
      rewrite lookup_old by (rewrite length_insert; lia).
      apply list_lookup_insert_eq. lia. }
  cbn [heap with_heap].
  rewrite insert_old, list_insert_insert_eq by (rewrite length_insert; lia).
  erewrite exec_silent.
  2:{ eapply exec_dict_getitem.
      - rewrite heap_with_heap. apply lookup_new. by rewrite length_insert.
      - by simplify_map_eq. }
  eexists. unfold subscript. eapply exec_dict_getitem.
  - rewrite heap_with_heap, lookup_old by (rewrite length_insert; lia).
    apply list_lookup_insert_eq. lia.
  - by simplify_map_eq.
Qed.

Section heap_examples.

Lemma pack_blockdata_requires_blockname_witness :
exec (pack_blockdata 0) (with_heap [payload_dict] fresh_world) =
  (Err (KeyError "blockname"), with_heap [payload_dict; ∅] fresh_world, []).
Proof.
exact (pack_blockdata_requires_blockname 0 payload_dict
         (with_heap [payload_dict] fresh_world) eq_refl eq_refl).
Defined.

Lemma pack_blockdata_requires_blockref_witness :
exec (pack_blockdata 0)
  (with_heap [<["blockname":=PJson (JStr "k1")]> payload_dict] fresh_world) =
  (Err (KeyError "blockref"),
   with_heap [delete "blockname" (<["blockname":=PJson (JStr "k1")]> payload_dict);
              <["name":=PJson (JStr "k1")]> ∅] fresh_world,
   []).
Proof.
exact (pack_blockdata_requires_blockref 0
         (<["blockname":=PJson (JStr "k1")]> payload_dict) (PJson (JStr "k1"))
         (with_heap [<["blockname":=PJson (JStr "k1")]> payload_dict] fresh_world)
         eq_refl eq_refl eq_refl).
Defined.

Lemma unpack_blockdata_consumes_record_witness :
∃ first second w',
  exec (unpack_twice 1) holder_world = (Ok (first, second), w', [])
  ∧ heap w' !! first
    = Some (<["blockid":=PJson (JStr "id-1")]>
              (<["blockref":=PJson (JStr "secret-block")]>
                 (<["blockname":=PJson (JStr "k1")]> payload_dict)))
  ∧ heap w' !! second
    = Some (<["blockid":=PNone]>
              (<["blockref":=PNone]> (<["blockname":=PNone]> payload_dict)))
  ∧ heap w' !! 1
    = Some (delete "blockid" (delete "blockref" (delete "name" record_by_reference))).
Proof.
apply (unpack_blockdata_consumes_record 1 record_by_reference
         (PJson (JStr "k1")) (PJson (JStr "secret-block")) (PJson (JStr "id-1"))
         (PRef 0) payload_dict holder_world);
  first [reflexivity | discriminate].
Defined.

Lemma unpack_blockdata_requires_mapping_witness :
exec (unpack_blockdata 0) (with_heap [payload_dict] fresh_world)
  = (Err (KeyError "data"), with_heap [payload_dict] fresh_world, [])
∧ exec (unpack_blockdata 0)
    (with_heap [<["data":=PJson (JStr "abc")]> ∅] fresh_world)
  = (Err TypeError, with_heap [<["data":=PJson (JStr "abc")]> ∅] fresh_world, []).
Proof.
split.
- apply (unpack_blockdata_requires_mapping 0 payload_dict
           (with_heap [payload_dict] fresh_world) eq_refl). reflexivity.
- apply (unpack_blockdata_requires_mapping 0 (<["data":=PJson (JStr "abc")]> ∅)
           (with_heap [<["data":=PJson (JStr "abc")]> ∅] fresh_world) eq_refl)
    with (j := JStr "abc"); [reflexivity | discriminate].
Defined.

Lemma unpack_blockdata_copies_data_witness :
∃ block w' flat,
  exec (unpack_blockdata 1) holder_world = (Ok block, w', [])
  ∧ block ≠ 0 ∧ block ≠ 1
  ∧ heap w' !! 0 = Some payload_dict
  ∧ heap w' !! block = Some flat
  ∧ is_Some (flat !! "blockname") ∧ is_Some (flat !! "blockref")
  ∧ is_Some (flat !! "blockid").
Proof.
apply (unpack_blockdata_copies_data 1 record_by_reference 0 payload_dict holder_world);
  first [reflexivity | discriminate].
Defined.

Lemma pack_blockdata_shares_data_witness :
∃ w', exec (pack_then_write 0 "token" (PJson (JStr "xyz"))) caller_world
      = (Ok (PJson (JStr "xyz")), w', []).
Proof.
apply (pack_blockdata_shares_data 0 flat_block
         (PJson (JStr "k1")) (PJson (JStr "secret-block"))); reflexivity.
Defined.
End heap_examples.

(** ** More on the key provider *)

Section key_provider_more.
Context `{L : Libs}.

(** X7: an override that is set to the empty string counts as not set:
    the call does what it does without the variable (configuration lookup,
    first-use generation), leaving the environment as it is. *)
Theorem empty_override_is_unset w :
  environ w !! "ORION_BLOCK_ENCRYPTION_KEY" = Some EmptyString →
  exec get_fernet_encryption w =
  (let '(o, w', t) :=
     exec get_fernet_encryption
       (with_environ (delete "ORION_BLOCK_ENCRYPTION_KEY" (environ w)) w) in
   (o, with_environ (environ w) w', t)).
Proof.
  intros Henv. destruct w as [env conf tbl hp tp dr]. simpl in Henv.
  unfold get_fernet_encryption. simpl. rewrite Henv, lookup_delete_eq. simpl.
  destruct (read_configuration_by_key _ conf) as [c|]; simpl.
  - destruct (value c) as [| | | | | |o]; simpl; try done.
    destruct (o !! "fernet_key") as [[| | | |s| |]|]; simpl; try done.
    rewrite !exec_Fernet. by destruct (fernet_key_ok (str_encode s)).
  - unfold decode_bytes. destruct (bytes_decode (generate_key (tp dr))); simpl; [|done].
    destruct (create_configuration _ conf); simpl; [|done].
    rewrite !exec_Fernet. by destruct (fernet_key_ok (generate_key (tp dr))).
Qed.

(** What a call can have done to the world: nothing, or one entropy draw,
    or one draw and one new entry at the end of the configuration table. *)
Lemma get_fernet_encryption_steps w o w' t :
  exec get_fernet_encryption w = (o, w', t) →
  w' = w
  ∨ (read_configuration_by_key "BLOCK_ENCRYPTION_KEY" (configuration w) = None
     ∧ (w' = with_drawn (S (drawn w)) w
        ∨ ∃ s, w' = with_configuration (configuration w ++ [key_entry s])
                      (with_drawn (S (drawn w)) w))).
Proof.
  unfold get_fernet_encryption. simpl.
  destruct (environ w !! "ORION_BLOCK_ENCRYPTION_KEY") as [[|a s]|]; simpl.
  2:{ rewrite exec_Fernet. simpl. intros [= <- <- <-]. by left. }
  all: destruct (read_configuration_by_key _ (configuration w)) as [c|] eqn:Hc; simpl.
  all: try (destruct (value c) as [| | | | | |obj]; simpl;
            try (intros [= <- <- <-]; by left);
            destruct (obj !! "fernet_key") as [[| | | |s| |]|]; simpl;
            try (intros [= <- <- <-]; by left);
            rewrite exec_Fernet; simpl; intros [= <- <- <-]; by left).
  all: unfold decode_bytes;
       destruct (bytes_decode (generate_key (tape w (drawn w)))) as [s|]; simpl;
       [|intros [= <- <- <-]; right; split; [done|by left]];
       unfold create_configuration; simpl; rewrite (find_None_existsb _ _ Hc); simpl;
       rewrite exec_Fernet; simpl; intros [= <- <- <-]; right; split; [done|];
       right; by exists s.
Qed.

Lemma get_fernet_encryption_keeps_tables w o w' t :
  exec get_fernet_encryption w = (o, w', t) →
  environ w' = environ w ∧ block_data w' = block_data w ∧ heap w' = heap w.
Proof.
  intros Hexec.
  by destruct (get_fernet_encryption_steps _ _ _ _ Hexec)
    as [->|[_ [->|[s ->]]]].
Qed.

(** X8: key resolution never rewrites what is stored.  Whatever its
    outcome, the call leaves the environment, the [block_data] table and
    all dict objects as they were; if the configuration already has an
    entry under the key name the world is unchanged, and otherwise the
    configuration table is unchanged or has gained exactly one entry, at
    its end. *)
Theorem get_fernet_encryption_frame w o w' t :
  exec get_fernet_encryption w = (o, w', t) →
  environ w' = environ w ∧ block_data w' = block_data w ∧ heap w' = heap w
  ∧ (is_Some (read_configuration_by_key "BLOCK_ENCRYPTION_KEY" (configuration w)) →
     w' = w)
  ∧ (configuration w' = configuration w
     ∨ ∃ s, configuration w' = configuration w ++ [key_entry s]).
Proof.
  intros Hexec.
  destruct (get_fernet_encryption_steps _ _ _ _ Hexec)
    as [->|[Hnone [->|[s ->]]]]; simpl.
  - split_and!; try done. by left.
  - split_and!; try done; [|by left]. rewrite Hnone. by intros [? ?].
  - split_and!; try done; [|right; by exists s]. rewrite Hnone. by intros [? ?].
Qed.

(** X9: a stored key entry that cannot be used is an error and is left
    alone.  With no override, when the entry's value is not a mapping, has
    no [fernet_key], holds something that is not a string, or holds a key
    [Fernet] refuses, the call raises ([TypeError], [KeyError],
    [AttributeError], [ValueError]); it generates no key and writes
    nothing. *)
Theorem malformed_configured_key w c :
  environ w !! "ORION_BLOCK_ENCRYPTION_KEY" = None →
  read_configuration_by_key "BLOCK_ENCRYPTION_KEY" (configuration w) = Some c →
  ((∀ o, value c ≠ JObj o) →
     exec get_fernet_encryption w =
     (Err TypeError, w, [EvReadConfiguration "BLOCK_ENCRYPTION_KEY"]))
  ∧ (∀ o, value c = JObj o → o !! "fernet_key" = None →
     exec get_fernet_encryption w =
     (Err (KeyError "fernet_key"), w, [EvReadConfiguration "BLOCK_ENCRYPTION_KEY"]))
  ∧ (∀ o v, value c = JObj o → o !! "fernet_key" = Some v → (∀ s, v ≠ JStr s) →
     exec get_fernet_encryption w =
     (Err AttributeError, w, [EvReadConfiguration "BLOCK_ENCRYPTION_KEY"]))
  ∧ (∀ o s, value c = JObj o → o !! "fernet_key" = Some (JStr s) →
     fernet_key_ok (str_encode s) = false →
     exec get_fernet_encryption w =
     (Err ValueError, w, [EvReadConfiguration "BLOCK_ENCRYPTION_KEY"])).
Proof.
  intros Henv Hc. split_and!.
  - intros Hv. unfold get_fernet_encryption. simpl.
    rewrite Henv. simpl. rewrite Hc. simpl.
    destruct (value c) as [| | | | | |o]; try done. by destruct (Hv o).
  - intros o Hv Hk. unfold get_fernet_encryption. simpl.
    rewrite Henv. simpl. rewrite Hc. simpl. rewrite Hv. simpl. by rewrite Hk.
  - intros o v Hv Hk Hstr. unfold get_fernet_encryption. simpl.
    rewrite Henv. simpl. rewrite Hc. simpl. rewrite Hv. simpl. rewrite Hk. simpl.
    destruct v; try done. by destruct (Hstr s).
  - intros o s Hv Hk Hbad.
    by rewrite (get_fernet_encryption_configured w c o s), Hbad.
Qed.

Context {HL : LibsLaws L}.

(** X10: the session that lost the race for the first key can simply call
    again: its first call raises [IntegrityError], and a second call, in
    the world the first one left, returns the key the other session
    persisted, without writing. *)
Theorem retry_after_lost_race w other s :
  environ w !! "ORION_BLOCK_ENCRYPTION_KEY" = None →
  read_configuration_by_key "BLOCK_ENCRYPTION_KEY" (configuration w) = None →
  environ (other w) !! "ORION_BLOCK_ENCRYPTION_KEY" = None →
  read_configuration_by_key "BLOCK_ENCRYPTION_KEY" (configuration (other w))
    = Some (key_entry s) →
  fernet_key_ok (str_encode s) = true →
  ∃ w' t,
    exec_among [other] get_fernet_encryption w = (Err IntegrityError, w', t)
    ∧ exec get_fernet_encryption w' =
      (Ok (mkFernet (str_encode s)), w', [EvReadConfiguration "BLOCK_ENCRYPTION_KEY"]).
Proof.
  intros Henv Hc Henv' Hc' Hok.
  destruct (generate_key_text (tape (other w) (drawn (other w)))) as [s' Hs'].
  eexists _, _. split.
  - unfold get_fernet_encryption. simpl. rewrite Henv. simpl. rewrite Hc. simpl.
    unfold decode_bytes. rewrite Hs'. simpl.
    unfold create_configuration. simpl. rewrite (find_Some_existsb _ _ _ Hc').
    reflexivity.
  - rewrite (get_fernet_encryption_configured _ (key_entry s)
               {["fernet_key" := JStr s]} s), Hok; done.
Qed.
End key_provider_more.

Section key_examples.
#[local] Existing Instance small_libs.

Lemma empty_override_is_unset_witness :
  exec get_fernet_encryption blank_override_world =
  (let '(o, w', t) := exec get_fernet_encryption fresh_world in
   (o, with_environ (environ blank_override_world) w', t)).
Proof.
  exact (empty_override_is_unset blank_override_world eq_refl).
Defined.

Lemma get_fernet_encryption_frame_witness :
  ∃ w' s, (exec get_fernet_encryption fresh_world).1.2 = w'
    ∧ environ w' = environ fresh_world ∧ block_data w' = [] ∧ heap w' = []
    ∧ configuration w' = [key_entry s].
Proof.
  destruct (exec get_fernet_encryption fresh_world) as [[o w'] t] eqn:Hexec.
  destruct (get_fernet_encryption_frame fresh_world o w' t Hexec)
    as (He & Hb & Hh & _ & [Hc|[s Hc]]).
  - exfalso. revert Hexec. vm_compute. intros [= _ <- _]. discriminate Hc.
  - exists w', s. by split_and!.
Defined.

Lemma malformed_configured_key_witness :
  exec get_fernet_encryption broken_world =
  (Err (KeyError "fernet_key"), broken_world,
   [EvReadConfiguration "BLOCK_ENCRYPTION_KEY"]).
Proof.
  destruct (malformed_configured_key broken_world
              (mkConfiguration "BLOCK_ENCRYPTION_KEY" (JObj ∅)) eq_refl eq_refl)
    as (_ & Hmissing & _).
  exact (Hmissing ∅ eq_refl eq_refl).
Defined.

Lemma retry_after_lost_race_witness :
  ∃ s w' t,
    exec_among [rival] get_fernet_encryption fresh_world = (Err IntegrityError, w', t)
    ∧ exec get_fernet_encryption w' =
      (Ok (mkFernet (str_encode s)), w', [EvReadConfiguration "BLOCK_ENCRYPTION_KEY"]).
Proof.
  eexists.
  eapply (retry_after_lost_race (HL:=small_laws) fresh_world rival);
    vm_compute; reflexivity.
Defined.
End key_examples.

(** ** More on the envelope codec *)

Section codec_more.
Context `{L : Libs}.

Lemma exec_encrypt_blockdata_inv w payload envelope w1 t1 :
  exec (encrypt_blockdata payload) w = (Ok envelope, w1, t1) →
  ∃ f w0 s,
    exec get_fernet_encryption w = (Ok f, w0, t1)
    ∧ w1 = with_drawn (S (drawn w0)) w0
    ∧ envelope = JObj {["encrypted_blob" := JStr s]}
    ∧ bytes_decode (fernet_encrypt (fernet_key f) (tape w0 (drawn w0))
                      (str_encode (json_dumps payload))) = Some s.
Proof.
  unfold encrypt_blockdata. rewrite exec_bind.
  destruct (exec get_fernet_encryption w) as [[[f|e] w0] t0]; [|done]. simpl.
  unfold decode_bytes.
  destruct (bytes_decode _) as [s|] eqn:Hs; simpl; [|done].
  rewrite (right_id_L [] (++)). intros [= <- <- <-]. by exists f, w0, s.
Qed.

(** Encrypting changes neither the tables of blocks nor the dict objects
    nor the environment. *)
Lemma encrypt_blockdata_keeps_tables w payload o w1 t1 :
  exec (encrypt_blockdata payload) w = (o, w1, t1) →
  environ w1 = environ w ∧ block_data w1 = block_data w ∧ heap w1 = heap w.
Proof.
  unfold encrypt_blockdata. rewrite exec_bind.
  destruct (exec get_fernet_encryption w) as [[[f|e] w0] t0] eqn:Hkey.
  - destruct (get_fernet_encryption_keeps_tables _ _ _ _ Hkey) as (He & Hb & Hh).
    simpl. unfold decode_bytes. destruct (bytes_decode _); simpl;
      intros [= <- <- <-]; simpl; by rewrite He, Hb, Hh.
  - destruct (get_fernet_encryption_keeps_tables _ _ _ _ Hkey) as (He & Hb & Hh).
    intros [= <- <- <-]. by rewrite He, Hb, Hh.
Qed.

(** Key resolution and decryption of a JSON envelope do not look at the
    dict objects: they run the same on any heap. *)
Lemma get_fernet_encryption_heap h w :
  exec get_fernet_encryption (with_heap h w) =
  (let '(o, w', t) := exec get_fernet_encryption w in (o, with_heap h w', t)).
Proof.
  destruct w as [env conf tbl hp tp dr].
  unfold get_fernet_encryption. simpl.
  destruct (env !! "ORION_BLOCK_ENCRYPTION_KEY") as [[|a s]|]; simpl.
  2:{ rewrite !exec_Fernet. by destruct (fernet_key_ok _). }
  all: destruct (read_configuration_by_key _ conf) as [c|]; simpl.
  all: try (destruct (value c) as [| | | | | |obj]; simpl; try done;
            destruct (obj !! "fernet_key") as [[| | | |s| |]|]; simpl; try done;
            rewrite !exec_Fernet; by destruct (fernet_key_ok _)).
  all: unfold decode_bytes; destruct (bytes_decode (generate_key (tp dr)));
       simpl; [|done];
       destruct (create_configuration _ conf); simpl; [|done];
       rewrite !exec_Fernet; by destruct (fernet_key_ok _).
Qed.

Lemma decrypt_blockdata_heap h j w :
  exec (decrypt_blockdata (PJson j)) (with_heap h w) =
  (let '(o, w', t) := exec (decrypt_blockdata (PJson j)) w in (o, with_heap h w', t)).
Proof.
  unfold decrypt_blockdata. rewrite !exec_bind, get_fernet_encryption_heap.
  destruct (exec get_fernet_encryption w) as [[[f|e] w0] t0]; [|done].
  destruct j as [| | | | | |obj]; simpl; try done.
  destruct (obj !! "encrypted_blob") as [[| | | |s| |]|]; simpl; try done.
  unfold decrypt. destruct (fernet_decrypt _ _); simpl; [|done].
  unfold decode_bytes. destruct (bytes_decode _); simpl; [|done].
  unfold loads. by destruct (json_loads _).
Qed.

Lemma decrypt_blockdata_keeps_tables j w o w1 t1 :
  exec (decrypt_blockdata (PJson j)) w = (o, w1, t1) →
  environ w1 = environ w ∧ block_data w1 = block_data w ∧ heap w1 = heap w.
Proof.
  unfold decrypt_blockdata. rewrite exec_bind.
  destruct (exec get_fernet_encryption w) as [[[f|e] w0] t0] eqn:Hkey;
    destruct (get_fernet_encryption_keeps_tables _ _ _ _ Hkey) as (He & Hb & Hh);
    [|by intros [= <- <- <-]].
  destruct j as [| | | | | |obj]; simpl; try (by intros [= <- <- <-]).
  destruct (obj !! "encrypted_blob") as [[| | | |s| |]|]; simpl;
    try (by intros [= <- <- <-]).
  unfold decrypt. destruct (fernet_decrypt _ _); simpl; [|by intros [= <- <- <-]].
  unfold decode_bytes. destruct (bytes_decode _); simpl; [|by intros [= <- <- <-]].
  unfold loads. destruct (json_loads _); simpl; by intros [= <- <- <-].
Qed.

(** X12: what [decrypt_blockdata] does with an envelope it cannot use.
    The key is resolved first, so the world is the one key resolution left
    (on a fresh deployment a key has been generated and persisted by then).
    After that a value that is not a mapping raises [TypeError], a mapping
    without [encrypted_blob] raises [KeyError], a blob that is not a string
    raises [AttributeError], and a blob Fernet rejects raises
    [InvalidToken]; no value is returned in any of these cases. *)
Theorem decrypt_blockdata_unusable_envelope w f w0 t0 :
  exec get_fernet_encryption w = (Ok f, w0, t0) →
  (∀ j, (∀ o, j ≠ JObj o) →
     exec (decrypt_blockdata (PJson j)) w = (Err TypeError, w0, t0))
  ∧ (∀ o, o !! "encrypted_blob" = None →
     exec (decrypt_blockdata (PJson (JObj o))) w
     = (Err (KeyError "encrypted_blob"), w0, t0))
  ∧ (∀ o v, o !! "encrypted_blob" = Some v → (∀ s, v ≠ JStr s) →
     exec (decrypt_blockdata (PJson (JObj o))) w = (Err AttributeError, w0, t0))
  ∧ (∀ o s, o !! "encrypted_blob" = Some (JStr s) →
     fernet_decrypt (fernet_key f) (str_encode s) = None →
     exec (decrypt_blockdata (PJson (JObj o))) w = (Err InvalidToken, w0, t0)).
Proof.
  intros Hkey. split_and!.
  - intros j Hj. unfold decrypt_blockdata. rewrite exec_bind, Hkey.
    destruct j as [| | | | | |obj]; simpl; rewrite ?(right_id_L [] (++)); try done.
    by destruct (Hj obj).
  - intros o Ho. unfold decrypt_blockdata. rewrite exec_bind, Hkey. simpl.
    rewrite Ho. simpl. by rewrite (right_id_L [] (++)).
  - intros o v Ho Hv. unfold decrypt_blockdata. rewrite exec_bind, Hkey. simpl.
    rewrite Ho. simpl.
    destruct v as [| | | |s| |]; simpl; rewrite ?(right_id_L [] (++)); try done.
    by destruct (Hv s).
  - intros o s Ho Hbad. unfold decrypt_blockdata. rewrite exec_bind, Hkey. simpl.
    rewrite Ho. simpl. unfold decrypt. rewrite Hbad. simpl.
    by rewrite (right_id_L [] (++)).
Qed.

Context {HL : LibsLaws L}.

Lemma exec_decrypt_envelope w f w0 t0 r payload s :
  exec get_fernet_encryption w = (Ok f, w0, t0) →
  fernet_key_ok (fernet_key f) = true →
  bytes_decode (fernet_encrypt (fernet_key f) r (str_encode (json_dumps payload)))
    = Some s →
  exec (decrypt_blockdata (PJson (JObj {["encrypted_blob" := JStr s]}))) w
  = (Ok payload, w0, t0).
Proof.
  intros Hkey Hok Hs. unfold decrypt_blockdata. rewrite exec_bind, Hkey. simpl.
  rewrite lookup_singleton_eq. simpl. rewrite (utf8_encode_decode _ _ Hs).
  unfold decrypt. rewrite fernet_decrypt_encrypt by done. simpl.
  unfold decode_bytes. rewrite utf8_decode_encode. simpl.
  unfold loads. rewrite json_loads_dumps. simpl.
  by rewrite (right_id_L [] (++)).
Qed.

Lemma decrypt_blockdata_later w payload envelope w1 t1 w2 :
  exec (encrypt_blockdata payload) w = (Ok envelope, w1, t1) →
  environ w2 = environ w1 → configuration w2 = configuration w1 →
  ∃ t2, exec (decrypt_blockdata (PJson envelope)) w2 = (Ok payload, w2, t2).
Proof.
  intros (f & w0 & s & Hkey & -> & -> & Hs)%exec_encrypt_blockdata_inv Henv Hconf.
  destruct (get_fernet_encryption_settles _ _ _ _ Hkey) as [Hok Hagain].
  destruct (Hagain w2) as [t2 Hkey2]; [done..|].
  exists t2. by eapply exec_decrypt_envelope.
Qed.

(** X11: an envelope stays readable.  Once [encrypt_blockdata] has
    returned an envelope, [decrypt_blockdata] returns its payload in every
    later world whose environment and configuration table are those the
    encryption left, whatever happened to blocks and dict objects in
    between; decrypting changes nothing in that world. *)
Theorem envelope_stays_readable w payload envelope w1 t1 w2 :
  exec (encrypt_blockdata payload) w = (Ok envelope, w1, t1) →
  environ w2 = environ w1 → configuration w2 = configuration w1 →
  ∃ t2, exec (decrypt_blockdata (PJson envelope)) w2 = (Ok payload, w2, t2).
Proof. apply decrypt_blockdata_later. Qed.
End codec_more.

Section codec_examples.
#[local] Existing Instance small_libs.

Lemma decrypt_blockdata_unusable_envelope_witness :
  ∃ w0 t0,
    exec (decrypt_blockdata (PJson (JObj ∅))) fresh_world
      = (Err (KeyError "encrypted_blob"), w0, t0)
    ∧ length (configuration w0) = 1.
Proof.
  destruct (exec get_fernet_encryption fresh_world) as [[o w0] t0] eqn:Hkey.
  assert (∃ f, o = Ok f ∧ length (configuration w0) = 1) as (f & -> & Hlen).
  { revert Hkey. vm_compute. intros [= <- <- _]. by eexists. }
  destruct (decrypt_blockdata_unusable_envelope fresh_world f w0 t0 Hkey)
    as (_ & Hmissing & _).
  exists w0, t0. split; [by apply Hmissing|done].
Defined.

Lemma envelope_stays_readable_witness :
  ∃ envelope w1 t1 t2,
    exec (encrypt_blockdata (JObj {["token" := JStr "abc"]})) fresh_world
      = (Ok envelope, w1, t1)
    ∧ exec (decrypt_blockdata (PJson envelope)) (with_block_data [row_k1] w1)
      = (Ok (JObj {["token" := JStr "abc"]}), with_block_data [row_k1] w1, t2).
Proof.
  destruct (exec (encrypt_blockdata (JObj {["token" := JStr "abc"]})) fresh_world)
    as [[o w1] t1] eqn:Henc.
  assert (∃ envelope, o = Ok envelope) as [envelope ->].
  { revert Henc. vm_compute. intros [= <- _ _]. by eexists. }
  destruct (envelope_stays_readable (HL:=small_laws) _ _ _ _ _
              (with_block_data [row_k1] w1) Henc eq_refl eq_refl) as [t2 Hdec].
  by exists envelope, w1, t1, t2.
Defined.
End codec_examples.

(** ** More on the block store *)

Lemma head_filter_fmap {A} (P : A → Prop) `{∀ x, Decision (P x)} (f : A → A) (t : list A) :
  (∀ x, P (f x) ↔ P x) →
  head (filter P (f <$> t)) = f <$> head (filter P t).
Proof.
  intros Hf. induction t as [|x t IH]; [done|]. rewrite fmap_cons.
  destruct (decide (P x)) as [Hx|Hx].
  - rewrite !filter_cons_True by (by rewrite ?Hf). done.
  - rewrite !filter_cons_False by (by rewrite ?Hf). exact IH.
Qed.

Lemma filter_other_name name name' (t : list row) :
  name' ≠ name →
  filter (λ r, matches (ByName name') r = true)
    (filter (λ r, matches (ByName name) r ≠ true) t)
  = filter (λ r, matches (ByName name') r = true) t.
Proof.
  intros Hne. induction t as [|r t IH]; [done|].
  destruct (matches (ByName name) r) eqn:Hr.
  - rewrite (filter_cons_False (λ r, matches (ByName name) r ≠ true)) by (by rewrite Hr; auto).
    rewrite (filter_cons_False (λ r, matches (ByName name') r = true)); [exact IH|].
    simpl in *. destruct (r !! "name") as [[| | | |s| |]|]; try done.
    apply String.eqb_eq in Hr as ->. intros Heq%String.eqb_eq. by subst.
  - rewrite (filter_cons_True (λ r, matches (ByName name) r ≠ true)) by (by rewrite Hr).
    destruct (matches (ByName name') r) eqn:Hr'.
    + rewrite !filter_cons_True by done. by rewrite IH.
    + rewrite !filter_cons_False by (by rewrite Hr'). exact IH.
Qed.

Section block_store_more.
Context `{L : Libs}.

Lemma exec_select c for_update w :
  exec (call (Execute (Select c for_update))) w =
  (Ok (mkResult (filter (λ r, matches c r = true) (block_data w)) (-1)), w,
   [EvExecute (Select c for_update)]).
Proof. simpl. by rewrite with_block_data_same. Qed.

Lemma exec_as_block r payload w w1 t1 :
  exec (decrypt_blockdata (PJson (attribute r "data"))) w = (Ok (JObj payload), w1, t1) →
  ∃ w',
    exec (as_block r) w = (Ok (S (length (heap w))), w', t1)
    ∧ heap w' !! S (length (heap w)) = Some (flat_of r payload)
    ∧ environ w' = environ w1 ∧ configuration w' = configuration w1
    ∧ block_data w' = block_data w1.
Proof.
  intros Hdec. unfold as_block.
  erewrite exec_silent by apply exec_dict_new.
  erewrite exec_silent.
  2:{ eapply exec_dict_getitem.
      - rewrite heap_with_heap. by apply lookup_new.
      - by simplify_map_eq. }
  rewrite exec_bind, decrypt_blockdata_heap, Hdec.
  erewrite exec_silent.
  2:{ eapply exec_dict_setitem. rewrite heap_with_heap.
      by apply lookup_new. }
  rewrite with_heap_with_heap, heap_with_heap, insert_new by done.
  erewrite unpack_blockdata_spec.
  2:{ rewrite heap_with_heap. by apply lookup_new. }
  2:{ by simplify_map_eq. }
  2:{ reflexivity. }
  rewrite (right_id_L [] (++)), with_heap_with_heap, heap_with_heap.
  rewrite length_app. simpl. replace (length (heap w) + 1) with (S (length (heap w))) by lia.
  eexists. split; [reflexivity|]. cbn [heap with_heap]. split_and!; try done.
  rewrite insert_new by done.
  match goal with
  | |- context [(?h' ++ [?a]) ++ [?b]] =>
      destruct (lookup_two_new (heap w) h' a b) as [_ H2]; [done|]
  end.
  by rewrite H2.
Qed.

Lemma read_by_name_flat w name r payload w1 t1 :
  head (filter (λ r, matches (ByName name) r = true) (block_data w)) = Some r →
  exec (decrypt_blockdata (PJson (attribute r "data"))) w = (Ok (JObj payload), w1, t1) →
  ∃ block w',
    exec (read_block_data_by_name_as_block name) w =
      (Ok (Some block), w', EvExecute (Select (ByName name) false) :: t1)
    ∧ heap w' !! block = Some (flat_of r payload).
Proof.
  intros Hrow Hdec. unfold read_block_data_by_name_as_block.
  rewrite exec_bind, exec_select. unfold scalar. cbn [rows]. rewrite Hrow.
  destruct (exec_as_block _ _ _ _ _ Hdec) as (w' & Hexec & Hflat & _).
  rewrite exec_bind, Hexec. simpl. rewrite (right_id_L [] (++)).
  by eexists _, _.
Qed.

(** X13: reading by name a block that is there.  When the first row of
    that name holds an envelope that decrypts to a mapping, the call
    returns a new dict with the mapping's items and [blockname],
    [blockref], [blockid] taken from the row's [name], [blockref] and [id]
    columns; it executes the one select (without a lock) and leaves the
    table and the environment as they were. *)
Theorem read_by_name_returns_flat_block name r payload w w1 t1 :
  head (filter (λ r, matches (ByName name) r = true) (block_data w)) = Some r →
  exec (decrypt_blockdata (PJson (attribute r "data"))) w = (Ok (JObj payload), w1, t1) →
  ∃ block w',
    exec (read_block_data_by_name_as_block name) w =
      (Ok (Some block), w', EvExecute (Select (ByName name) false) :: t1)
    ∧ heap w' !! block = Some (flat_of r payload)
    ∧ block_data w' = block_data w ∧ environ w' = environ w
    ∧ configuration w' = configuration w1.
Proof.
  intros Hrow Hdec. unfold read_block_data_by_name_as_block.
  rewrite exec_bind, exec_select. unfold scalar. cbn [rows]. rewrite Hrow.
  destruct (exec_as_block _ _ _ _ _ Hdec) as (w' & Hexec & Hflat & He & Hc & Hb).
  destruct (decrypt_blockdata_keeps_tables _ _ _ _ _ Hdec) as (He1 & Hb1 & _).
  rewrite exec_bind, Hexec. simpl. rewrite (right_id_L [] (++)).
  eexists _, _. split; [reflexivity|]. split_and!; [exact Hflat|congruence..].
Qed.

(** X14: reading by id a block that is there gives the same flat block as
    reading it by name: the mapping's items with [blockname], [blockref],
    [blockid] from the row; the select it executes is the one with the
    row lock, and the table is left as it was. *)
Theorem read_by_id_returns_flat_block block_data_id r payload w w1 t1 :
  head (filter (λ r, matches (ById block_data_id) r = true) (block_data w)) = Some r →
  exec (decrypt_blockdata (PJson (attribute r "data"))) w = (Ok (JObj payload), w1, t1) →
  ∃ block w',
    exec (read_block_data_as_block block_data_id) w =
      (Ok (Some block), w', EvExecute (Select (ById block_data_id) true) :: t1)
    ∧ heap w' !! block = Some (flat_of r payload)
    ∧ block_data w' = block_data w ∧ environ w' = environ w
    ∧ configuration w' = configuration w1.
Proof.
  intros Hrow Hdec. unfold read_block_data_as_block.
  rewrite exec_bind, exec_select. unfold scalar. cbn [rows]. rewrite Hrow.
  destruct (exec_as_block _ _ _ _ _ Hdec) as (w' & Hexec & Hflat & He & Hc & Hb).
  destruct (decrypt_blockdata_keeps_tables _ _ _ _ _ Hdec) as (He1 & Hb1 & _).
  rewrite exec_bind, Hexec. simpl. rewrite (right_id_L [] (++)).
  eexists _, _. split; [reflexivity|]. split_and!; [exact Hflat|congruence..].
Qed.

(** X17: deleting a block leaves the others alone.  After
    [delete_block_data_by_name], a select by any other name finds the rows
    it found before, in the same order; the configuration table, the
    environment and the dict objects are untouched. *)
Theorem delete_keeps_other_names name w :
  ∃ b w',
    exec (delete_block_data_by_name name) w
      = (Ok b, w', [EvExecute (Delete (ByName name))])
    ∧ (∀ name', name' ≠ name →
         filter (λ r, matches (ByName name') r = true) (block_data w')
         = filter (λ r, matches (ByName name') r = true) (block_data w))
    ∧ configuration w' = configuration w ∧ environ w' = environ w
    ∧ heap w' = heap w.
Proof.
  eexists _, _. split; [apply exec_delete|]. cbn [block_data with_block_data].
  split_and!; try done. intros name' Hne. by apply filter_other_name.
Qed.


End block_store_more.

Section update_and_read.
Context `{L : Libs} {HL : LibsLaws L}.

(** X15: replacing a block's payload and reading the block back.  For a
    block that is there and a key that resolves,
    [update_block_data name {data: payload}] followed by
    [read_block_data_by_name_as_block name] returns the new payload's items
    with [blockname], [blockref] and [blockid] as the row had them before
    the update. *)
Theorem update_then_read_returns_new_payload name r payload w f w0 t0 :
  head (filter (λ r, matches (ByName name) r = true) (block_data w)) = Some r →
  exec get_fernet_encryption w = (Ok f, w0, t0) →
  ∃ block w' t,
    exec (update_then_read name (JObj payload)) w = (Ok (Some block), w', t)
    ∧ heap w' !! block = Some (flat_of r payload).
Proof.
  intros Hrow Hkey. unfold update_then_read.
  destruct (encrypt_blockdata_resolved w (JObj payload) f w0 t0 Hkey)
    as (s & Hs & Henc & Hok & Hagain).
  destruct (loaded_token _ _ _ _ Hok Hs) as [Hdec Hload].
  destruct (encrypt_blockdata_keeps_tables _ _ _ _ _ Henc) as (_ & Hb & _).
  cbn [block_data with_drawn] in Hb.
  set (provided := filter (λ kv, is_not_None kv.2 = true)
                    ({["data" := JObj payload]} : gmap string json)).
  assert (Hdata : provided !! "data" = Some (JObj payload)).
  { apply lookup_provided. by rewrite lookup_singleton_eq. }
  assert (Hother : ∀ k, k ≠ "data" → provided !! k = None).
  { intros k Hk. destruct (provided !! k) as [v|] eqn:Hv; [|done].
    apply lookup_provided in Hv as [Hv _]. by rewrite lookup_singleton_ne in Hv. }
  set (envelope := JObj {["encrypted_blob" := JStr s]}) in *.
  set (values := <["data":=envelope]> provided).
  set (w2 := with_block_data
               ((λ r : row, if matches (ByName name) r then values ∪ r else r)
                  <$> block_data w0)
               (with_drawn (S (drawn w0)) w0)).
  assert (Hupdate : exec (update_block_data name {["data" := JObj payload]}) w =
                    (Ok (has_row name (block_data w0)), w2,
                     t0 ++ [EvExecute (Update (ByName name) values)])).
  { rewrite exec_update_block_data. cbv zeta. fold provided.
    rewrite Hdata, Henc, exec_update_statement. done. }
  assert (Hrow2 : head (filter (λ r, matches (ByName name) r = true) (block_data w2))
                  = Some (values ∪ r)).
  { subst w2. cbn [block_data with_block_data]. rewrite Hb.
    rewrite (head_filter_fmap (λ r, matches (ByName name) r = true)), Hrow.
    - cbn [fmap option_fmap option_map].
      replace (matches (ByName name) r) with true; [done|].
      symmetry. apply head_Some_elem_of, list_elem_of_filter in Hrow. by destruct Hrow.
    - intros x. cbv beta. destruct (matches (ByName name) x) eqn:Hx; [|by rewrite Hx].
      unfold matches in Hx |- *. rewrite lookup_union_r; [by rewrite Hx|].
      subst values. rewrite lookup_insert_ne by done. by apply Hother. }
  destruct (Hagain w2) as [t2 Hkey2]; [done..|].
  assert (Hcol : attribute (values ∪ r) "data" = envelope).
  { unfold attribute. subst values.
    by rewrite (lookup_union_Some_l _ _ _ envelope) by apply lookup_insert_eq. }
  destruct (read_by_name_flat w2 name (values ∪ r) payload w2 t2)
    as (block & w' & Hread & Hflat); [done| |].
  { rewrite Hcol. subst envelope.
    rewrite (exec_decrypt_blockdata _ _ _ _ _ s Hkey2) by apply lookup_singleton_eq.
    by rewrite Hdec, Hload. }
  exists block, w'. eexists. split.
  - rewrite exec_bind, Hupdate, Hread. reflexivity.
  - rewrite Hflat. f_equal. unfold flat_of, attribute.
    rewrite !lookup_union_r; [done|..]; subst values;
      rewrite lookup_insert_ne by done; by apply Hother.
Qed.
End update_and_read.

Section store_examples.
#[local] Existing Instance small_libs.

Lemma read_by_name_returns_flat_block_witness :
  ∃ block w' t,
    exec (read_block_data_by_name_as_block "k1") updated_world = (Ok (Some block), w', t)
    ∧ heap w' !! block =
      Some (<["blockid":=PJson (JStr "id-1")]>
              (<["blockref":=PJson (JStr "secret-block")]>
                 (<["blockname":=PJson (JStr "k1")]> {["token" := PJson (JStr "xyz")]})))
    ∧ block_data w' = block_data updated_world.
Proof.
  edestruct (read_by_name_returns_flat_block "k1") with (w := updated_world)
    as (block & w' & Hread & Hflat & Hb & _);
    [vm_compute; reflexivity|vm_compute; reflexivity|].
  exists block, w'. eexists. split; [exact Hread|]. split; [|exact Hb].
  etrans; [exact Hflat|]. vm_compute. reflexivity.
Defined.

Lemma read_by_id_returns_flat_block_witness :
  ∃ block w' t,
    exec (read_block_data_as_block "id-1") updated_world = (Ok (Some block), w', t)
    ∧ heap w' !! block =
      Some (<["blockid":=PJson (JStr "id-1")]>
              (<["blockref":=PJson (JStr "secret-block")]>
                 (<["blockname":=PJson (JStr "k1")]> {["token" := PJson (JStr "xyz")]})))
    ∧ block_data w' = block_data updated_world.
Proof.
  edestruct (read_by_id_returns_flat_block "id-1") with (w := updated_world)
    as (block & w' & Hread & Hflat & Hb & _);
    [vm_compute; reflexivity|vm_compute; reflexivity|].
  exists block, w'. eexists. split; [exact Hread|]. split; [|exact Hb].
  etrans; [exact Hflat|]. vm_compute. reflexivity.
Defined.

Lemma update_then_read_returns_new_payload_witness :
  ∃ block w' t,
    exec (update_then_read "k1" (JObj {["token" := JStr "xyz"]})) stored_world
      = (Ok (Some block), w', t)
    ∧ heap w' !! block = Some (flat_of row_k1 {["token" := JStr "xyz"]}).
Proof.
  eapply (update_then_read_returns_new_payload (HL:=small_laws) "k1" row_k1 _ stored_world);
    vm_compute; reflexivity.
Defined.

End store_examples.
